(** * pdf-pii-anonymizer: detection results and the anonymizer's rewrite

    A shallow embedding of [pii_types.py], [detector.py] and
    [anonymizer.py] of the pdf-pii-anonymizer package, of the text of an
    OCR result ([ocr.py]) and of the stories of [pdf_generator.py], and
    the properties of the rewrite, the ledger, the replacement mapping,
    the detector's result, the generators and the layout proved about it.

    Python values are modelled as follows.
    - [int] is [Z]; [float] scores are carried around but never computed
      with by the package, they are rationals [Q] here.
    - [str] is a list of code points ([N]); [lit] turns a literal into one.
    - a [dict] is an association list in insertion order with unique keys.
    - a [set] of strings is a duplicate-free list.
    - the Faker instance is an interface ([Faker]) whose state is threaded
      through the generators by a state monad ([Gen]).
    - the Presidio [AnalyzerEngine] held by the detector is an injected
      object with an [analyze] method ([AnalyzerEngine]). *)

From Stdlib Require Import String Ascii DecimalString.
From Stdlib Require Import List ZArith QArith Bool Lia Permutation Sorted.
Import ListNotations.

Local Open Scope Z_scope.
Local Open Scope list_scope.

(** ** Python built-ins used by the package *)

Module Py.

Definition char := N.
Definition str := list char.

(** A string literal of the source. *)
Definition lit (s : string) : str := map N_of_ascii (list_ascii_of_string s).

Definition len {A} (s : list A) : Z := Z.of_nat (length s).

Fixpoint str_eqb (a b : str) : bool :=
  match a, b with
  | [], [] => true
  | x :: a', y :: b' => N.eqb x y && str_eqb a' b'
  | _, _ => false
  end.

(** An index of a slice, as [PySlice_AdjustIndices] clamps it: a negative
    index counts from the end, and the result lies in [0, n]. *)
Definition adjust (n i : Z) : Z :=
  if i <? 0 then Z.max 0 (i + n) else Z.min i n.

(** [s[:i]] *)
Definition slice_to {A} (s : list A) (i : Z) : list A :=
  firstn (Z.to_nat (adjust (len s) i)) s.

(** [s[i:]] *)
Definition slice_from {A} (s : list A) (i : Z) : list A :=
  skipn (Z.to_nat (adjust (len s) i)) s.

(** [s[i:j]] *)
Definition slice {A} (s : list A) (i j : Z) : list A :=
  let a := adjust (len s) i in
  let b := adjust (len s) j in
  firstn (Z.to_nat (b - a)) (skipn (Z.to_nat a) s).

(** [s[i]]; [None] stands for IndexError. *)
Definition getitem {A} (s : list A) (i : Z) : option A :=
  let j := if i <? 0 then i + len s else i in
  if (0 <=? j) && (j <? len s) then nth_error s (Z.to_nat j) else None.

(** [str(n)] and [f"{n}"] for an int. *)
Definition str_of_int (n : Z) : str := lit (NilZero.string_of_int (Z.to_int n)).

(** [f"{n:02d}"] *)
Definition format_02d (n : Z) : str :=
  let s := str_of_int n in
  if len s <? 2 then lit "0" ++ s else s.

(** [c.isspace()] for a code point. *)
Definition isspace (c : char) : bool :=
  ((9 <=? c) && (c <=? 13) || (28 <=? c) && (c <=? 32)
   || (c =? 133) || (c =? 160) || (c =? 5760)
   || (8192 <=? c) && (c <=? 8202)
   || (c =? 8232) || (c =? 8233) || (c =? 8239) || (c =? 8287)
   || (c =? 12288))%N.

Fixpoint lstrip (s : str) : str :=
  match s with
  | c :: s' => if isspace c then lstrip s' else s
  | [] => []
  end.

Definition rstrip (s : str) : str := rev (lstrip (rev s)).

(** [s.strip()] *)
Definition strip (s : str) : str := lstrip (rstrip s).

Fixpoint startswith (s p : str) : bool :=
  match p, s with
  | [], _ => true
  | x :: p', y :: s' => N.eqb x y && startswith s' p'
  | _ :: _, [] => false
  end.

(** The scan of [s.replace(old, new)] for a non-empty [old]: [skip] counts
    the characters of a match that are still to be passed over. *)
Fixpoint replace_scan (old new s : str) (skip : nat) : str :=
  match s with
  | [] => []
  | c :: s' =>
      match skip with
      | S k => replace_scan old new s' k
      | O =>
          if startswith s old
          then new ++ replace_scan old new s' (length old - 1)
          else c :: replace_scan old new s' 0
      end
  end.

(** [s.replace(old, new)]: every occurrence, leftmost first and without
    overlap; an empty [old] matches before every character and at the end. *)
Definition replace (s old new : str) : str :=
  match old with
  | [] => flat_map (fun c => new ++ [c]) s ++ new
  | _ :: _ => replace_scan old new s 0
  end.

(** [old in s] for strings. *)
Fixpoint contains (s old : str) : bool :=
  startswith s old ||
  match s with
  | [] => false
  | _ :: s' => contains s' old
  end.

(** Insertion into a list sorted by a stable sort: [x] comes from before
    every element of [l] in the input, so it stays before its equals.
    [before y x] says that [y] sorts strictly before [x]. *)
Fixpoint insert_stable {A} (before : A -> A -> bool) (x : A) (l : list A)
  : list A :=
  match l with
  | [] => [x]
  | y :: l' =>
      if before y x then y :: insert_stable before x l' else x :: y :: l'
  end.

Definition sort_stable {A} (before : A -> A -> bool) (l : list A) : list A :=
  fold_right (insert_stable before) [] l.

(** [sorted(l, key=key)] and [l.sort(key=key)] *)
Definition sorted {A} (key : A -> Z) (l : list A) : list A :=
  sort_stable (fun y x => key y <? key x) l.

(** [sorted(l, key=key, reverse=True)]; equal keys keep their order. *)
Definition sorted_reverse {A} (key : A -> Z) (l : list A) : list A :=
  sort_stable (fun y x => key x <? key y) l.

(** *** dict with string keys, in insertion order *)

Definition dict (V : Type) := list (str * V).

Fixpoint dict_get {V} (d : dict V) (k : str) : option V :=
  match d with
  | [] => None
  | (k', v) :: d' => if str_eqb k' k then Some v else dict_get d' k
  end.

(** [k in d] *)
Definition dict_contains {V} (d : dict V) (k : str) : bool :=
  match dict_get d k with Some _ => true | None => false end.

(** [d[k] = v]: an existing key keeps its place. *)
Fixpoint dict_set {V} (d : dict V) (k : str) (v : V) : dict V :=
  match d with
  | [] => [(k, v)]
  | (k', v') :: d' =>
      if str_eqb k' k then (k', v) :: d' else (k', v') :: dict_set d' k v
  end.

(** A dict display or comprehension: the items are stored one by one. *)
Definition dict_of_items {V} (items : list (str * V)) : dict V :=
  fold_left (fun d kv => dict_set d (fst kv) (snd kv)) items [].

(** [d.items()] *)
Definition items {V} (d : dict V) : list (str * V) := d.

(** [s.add(x)] on a set of strings. *)
Fixpoint set_add (s : list str) (x : str) : list str :=
  match s with
  | [] => [x]
  | y :: s' => if str_eqb y x then s else y :: set_add s' x
  end.

(** [d.get(k, default)] *)
Definition dict_get_default {V} (d : dict V) (k : str) (default : V) : V :=
  match dict_get d k with Some v => v | None => default end.

(** The scan of [s.split(sep)] for a non-empty [sep]: [cur] holds, in
    reverse, the piece that is being read, and [skip] counts the
    characters of a separator that are still to be passed over. *)
Fixpoint split_scan (sep s : str) (skip : nat) (cur : str) : list str :=
  match s with
  | [] => [rev cur]
  | c :: s' =>
      match skip with
      | S k => split_scan sep s' k cur
      | O =>
          if startswith s sep
          then rev cur :: split_scan sep s' (length sep - 1) []
          else split_scan sep s' 0 (c :: cur)
      end
  end.

(** [s.split(sep)] for a non-empty [sep]. *)
Definition split (s sep : str) : list str := split_scan sep s 0 [].

(** What a call does: it returns a value or raises. *)
Inductive exn := RuntimeError (msg : string).

Inductive outcome (A : Type) :=
| Returns (v : A)
| Raises (e : exn).
Arguments Returns {A} v.
Arguments Raises {A} e.

End Py.

(** ** pii_types.py *)

Module pii_types.
Import Py.

Inductive PIICategory :=
| GOVERNMENT_ID | FINANCIAL | PERSONAL | CONTACT | MEDICAL
| DIGITAL | VEHICLE | EMPLOYMENT | EDUCATION | MILITARY.

Record PIIType := {
  name : str;
  code : str;
  category : PIICategory;
  description : str;
  regex_pattern : option str;
  presidio_entity : option str;
  requires_custom_recognizer : bool
}.

Definition US_PII_TYPES : list PIIType :=
  [
    {| name := lit "Social Security Number";
       code := lit "SSN";
       category := GOVERNMENT_ID;
       description := lit "9-digit US Social Security Number";
       regex_pattern := Some (lit "\b(?!000|666|9\d{2})\d{3}[-\s]?(?!00)\d{2}[-\s]?(?!0000)\d{4}\b");
       presidio_entity := Some (lit "US_SSN");
       requires_custom_recognizer := false |};
    {| name := lit "Driver's License Number";
       code := lit "DRIVERS_LICENSE";
       category := GOVERNMENT_ID;
       description := lit "State-issued driver's license number";
       regex_pattern := None;
       presidio_entity := Some (lit "US_DRIVER_LICENSE");
       requires_custom_recognizer := false |};
    {| name := lit "Passport Number";
       code := lit "PASSPORT";
       category := GOVERNMENT_ID;
       description := lit "US Passport number";
       regex_pattern := Some (lit "\b[A-Z]?\d{8,9}\b");
       presidio_entity := Some (lit "US_PASSPORT");
       requires_custom_recognizer := true |};
    {| name := lit "State ID Number";
       code := lit "STATE_ID";
       category := GOVERNMENT_ID;
       description := lit "State-issued identification number";
       regex_pattern := None;
       presidio_entity := None;
       requires_custom_recognizer := true |};
    {| name := lit "Individual Taxpayer Identification Number";
       code := lit "ITIN";
       category := GOVERNMENT_ID;
       description := lit "IRS-issued ITIN for tax processing";
       regex_pattern := Some (lit "\b9\d{2}[-\s]?[7-9]\d[-\s]?\d{4}\b");
       presidio_entity := Some (lit "US_ITIN");
       requires_custom_recognizer := false |};
    {| name := lit "Bank Account Number";
       code := lit "BANK_ACCOUNT";
       category := FINANCIAL;
       description := lit "Bank account number";
       regex_pattern := Some (lit "\b\d{8,17}\b");
       presidio_entity := Some (lit "US_BANK_NUMBER");
       requires_custom_recognizer := false |};
    {| name := lit "Credit Card Number";
       code := lit "CREDIT_CARD";
       category := FINANCIAL;
       description := lit "Credit card number (Visa, MasterCard, Amex, etc.)";
       regex_pattern := None;
       presidio_entity := Some (lit "CREDIT_CARD");
       requires_custom_recognizer := false |};
    {| name := lit "Debit Card Number";
       code := lit "DEBIT_CARD";
       category := FINANCIAL;
       description := lit "Debit card number";
       regex_pattern := None;
       presidio_entity := Some (lit "CREDIT_CARD");
       requires_custom_recognizer := false |};
    {| name := lit "Financial Account Number";
       code := lit "FINANCIAL_ACCOUNT";
       category := FINANCIAL;
       description := lit "Generic financial account number (brokerage, investment, etc.)";
       regex_pattern := Some (lit "\b[A-Z]{0,3}\d{6,12}\b");
       presidio_entity := None;
       requires_custom_recognizer := true |};
    {| name := lit "Full Name";
       code := lit "PERSON_NAME";
       category := PERSONAL;
       description := lit "Full legal name (first, middle, last)";
       regex_pattern := None;
       presidio_entity := Some (lit "PERSON");
       requires_custom_recognizer := false |};
    {| name := lit "Date of Birth";
       code := lit "DATE_OF_BIRTH";
       category := PERSONAL;
       description := lit "Date of birth in various formats";
       regex_pattern := None;
       presidio_entity := Some (lit "DATE_TIME");
       requires_custom_recognizer := true |};
    {| name := lit "Place of Birth";
       code := lit "PLACE_OF_BIRTH";
       category := PERSONAL;
       description := lit "City/state/country of birth";
       regex_pattern := None;
       presidio_entity := Some (lit "LOCATION");
       requires_custom_recognizer := true |};
    {| name := lit "Mother's Maiden Name";
       code := lit "MOTHERS_MAIDEN_NAME";
       category := PERSONAL;
       description := lit "Mother's maiden name (security question)";
       regex_pattern := None;
       presidio_entity := None;
       requires_custom_recognizer := true |};
    {| name := lit "Email Address";
       code := lit "EMAIL";
       category := CONTACT;
       description := lit "Email address";
       regex_pattern := None;
       presidio_entity := Some (lit "EMAIL_ADDRESS");
       requires_custom_recognizer := false |};
    {| name := lit "Phone Number";
       code := lit "PHONE";
       category := CONTACT;
       description := lit "Phone number (mobile, home, work)";
       regex_pattern := None;
       presidio_entity := Some (lit "PHONE_NUMBER");
       requires_custom_recognizer := false |};
    {| name := lit "Physical Address";
       code := lit "ADDRESS";
       category := CONTACT;
       description := lit "Street address, city, state, ZIP code";
       regex_pattern := None;
       presidio_entity := Some (lit "LOCATION");
       requires_custom_recognizer := true |};
    {| name := lit "IP Address";
       code := lit "IP_ADDRESS";
       category := DIGITAL;
       description := lit "IPv4 or IPv6 address";
       regex_pattern := None;
       presidio_entity := Some (lit "IP_ADDRESS");
       requires_custom_recognizer := false |};
    {| name := lit "Medical Record Number";
       code := lit "MEDICAL_RECORD";
       category := MEDICAL;
       description := lit "Hospital/clinic medical record number";
       regex_pattern := Some (lit "\b(?:MRN|MR#?|Medical Record)[:\s#]*\d{6,12}\b");
       presidio_entity := Some (lit "MEDICAL_LICENSE");
       requires_custom_recognizer := true |};
    {| name := lit "Health Insurance ID";
       code := lit "HEALTH_INSURANCE_ID";
       category := MEDICAL;
       description := lit "Health insurance policy/member ID";
       regex_pattern := Some (lit "\b[A-Z]{3}\d{9,12}\b");
       presidio_entity := None;
       requires_custom_recognizer := true |};
    {| name := lit "Biometric Data";
       code := lit "BIOMETRIC";
       category := PERSONAL;
       description := lit "Fingerprint, facial recognition, retina scan data";
       regex_pattern := None;
       presidio_entity := None;
       requires_custom_recognizer := true |};
    {| name := lit "Vehicle Registration Number";
       code := lit "VEHICLE_REGISTRATION";
       category := VEHICLE;
       description := lit "Vehicle registration/title number";
       regex_pattern := Some (lit "\b[A-Z0-9]{6,17}\b");
       presidio_entity := None;
       requires_custom_recognizer := true |};
    {| name := lit "License Plate Number";
       code := lit "LICENSE_PLATE";
       category := VEHICLE;
       description := lit "Vehicle license plate number";
       regex_pattern := Some (lit "\b[A-Z0-9]{2,8}\b");
       presidio_entity := None;
       requires_custom_recognizer := true |};
    {| name := lit "Digital Signature";
       code := lit "DIGITAL_SIGNATURE";
       category := DIGITAL;
       description := lit "Electronic/digital signature";
       regex_pattern := None;
       presidio_entity := None;
       requires_custom_recognizer := true |};
    {| name := lit "Username/Password";
       code := lit "CREDENTIALS";
       category := DIGITAL;
       description := lit "Login credentials";
       regex_pattern := Some (lit "(?:password|pwd|pass)[:\s]*[^\s]+");
       presidio_entity := None;
       requires_custom_recognizer := true |};
    {| name := lit "Employee ID";
       code := lit "EMPLOYEE_ID";
       category := EMPLOYMENT;
       description := lit "Employer-assigned employee identification number";
       regex_pattern := Some (lit "\b(?:EMP|Employee)[:\s#]*\d{4,10}\b");
       presidio_entity := None;
       requires_custom_recognizer := true |};
    {| name := lit "Student ID";
       code := lit "STUDENT_ID";
       category := EDUCATION;
       description := lit "School/university student identification number";
       regex_pattern := Some (lit "\b(?:Student|SID)[:\s#]*\d{5,12}\b");
       presidio_entity := None;
       requires_custom_recognizer := true |};
    {| name := lit "Military ID";
       code := lit "MILITARY_ID";
       category := MILITARY;
       description := lit "Military service identification number (DoD ID)";
       regex_pattern := Some (lit "\b\d{10}\b");
       presidio_entity := None;
       requires_custom_recognizer := true |}
  ].

(** [{pii.code: pii for pii in US_PII_TYPES}] *)
Definition PII_TYPE_MAP : dict PIIType :=
  dict_of_items (map (fun pii => (code pii, pii)) US_PII_TYPES).

(** [{pii.presidio_entity: pii.code for pii in US_PII_TYPES
      if pii.presidio_entity}] *)
Definition PRESIDIO_ENTITY_MAP : dict str :=
  dict_of_items
    (flat_map (fun pii =>
                 match presidio_entity pii with
                 | Some (c :: e) => [(c :: e, code pii)]
                 | _ => []
                 end) US_PII_TYPES).

End pii_types.

(** ** detector.py *)

Module detector.
Import Py.

Record PIIMatch := {
  entity_type : str;
  text : str;
  start : Z;
  end_ : Z;
  score : Q;
  pii_type : option pii_types.PIIType
}.

(** [PIIMatch.__post_init__] *)
Definition PIIMatch_post_init (self : PIIMatch) : PIIMatch :=
  match pii_type self with
  | None =>
      {| entity_type := entity_type self; text := text self;
         start := start self; end_ := end_ self; score := score self;
         pii_type := dict_get pii_types.PII_TYPE_MAP (entity_type self) |}
  | Some _ => self
  end.

(** [PIIMatch(entity_type=..., text=..., start=..., end=..., score=...,
    pii_type=...)]: the generated [__init__] stores the fields and calls
    [__post_init__]. *)
Definition PIIMatch_init (entity_type : str) (text : str) (start end_ : Z)
    (score : Q) (pii_type : option pii_types.PIIType) : PIIMatch :=
  PIIMatch_post_init
    {| entity_type := entity_type; text := text; start := start;
       end_ := end_; score := score; pii_type := pii_type |}.

(** The constructor with [pii_type] left to its default, [None]. *)
Definition new_PIIMatch (entity_type : str) (text : str) (start end_ : Z)
    (score : Q) : PIIMatch :=
  PIIMatch_init entity_type text start end_ score None.

Record DetectionResult := {
  dr_text : str;
  matches : list PIIMatch;
  total_pii_count : Z;
  pii_types_found : list str
}.

(** The property [DetectionResult.has_pii]. *)
Definition has_pii (self : DetectionResult) : bool :=
  0 <? total_pii_count self.

(** What the analyzer returns: Presidio's [RecognizerResult], of which the
    detector reads four attributes. *)
Record RecognizerResult := {
  rr_entity_type : str;
  rr_start : Z;
  rr_end : Z;
  rr_score : Q
}.

(** The object held in [self.analyzer]: anything with a method
    [analyze(text=, language=, entities=, score_threshold=)]. *)
Record AnalyzerEngine := {
  analyze : str -> str -> list str -> Q -> list RecognizerResult
}.

Record PIIDetector := {
  language : str;
  score_threshold : Q;
  analyzer : option AnalyzerEngine
}.

Definition PRESIDIO_ENTITIES : list str :=
  map lit
    ["PERSON"; "EMAIL_ADDRESS"; "PHONE_NUMBER"; "US_SSN"; "US_DRIVER_LICENSE";
     "CREDIT_CARD"; "US_BANK_NUMBER"; "US_ITIN"; "IP_ADDRESS"; "LOCATION";
     "DATE_TIME"; "NRP"; "MEDICAL_LICENSE"; "URL"; "IBAN_CODE"]%string.

Definition CUSTOM_ENTITIES : list str :=
  map lit
    ["US_PASSPORT"; "STATE_ID"; "MEDICAL_RECORD"; "HEALTH_INSURANCE_ID";
     "EMPLOYEE_ID"; "STUDENT_ID"; "MILITARY_ID"; "VEHICLE_REGISTRATION";
     "LICENSE_PLATE"; "CREDENTIALS"; "US_ADDRESS"; "DATE_OF_BIRTH";
     "MOTHERS_MAIDEN_NAME"; "FINANCIAL_ACCOUNT"]%string.

(** [PIIDetector.__init__]: [engine] is what [_initialize_analyzer] builds
    when [load_spacy_model] is true. *)
Definition PIIDetector_init (language : str) (score_threshold : Q)
    (load_spacy_model : bool) (engine : AnalyzerEngine) : PIIDetector :=
  {| language := language; score_threshold := score_threshold;
     analyzer := if load_spacy_model then Some engine else None |}.

(** One turn of the loop over [results] in [detect]. *)
Definition detect_step (text : str) (acc : list PIIMatch * list str)
    (result : RecognizerResult) : list PIIMatch * list str :=
  let '(matches, pii_types_found) := acc in
  let match_ :=
    new_PIIMatch (rr_entity_type result)
      (slice text (rr_start result) (rr_end result))
      (rr_start result) (rr_end result) (rr_score result) in
  (matches ++ [match_], set_add pii_types_found (rr_entity_type result)).

(** [PIIDetector.detect] *)
Definition detect (self : PIIDetector) (text : str)
  : outcome DetectionResult :=
  if match text with [] => true | _ => false end
     || match strip text with [] => true | _ => false end
  then
    Returns {| dr_text := text; matches := []; total_pii_count := 0;
               pii_types_found := [] |}
  else
    match analyzer self with
    | None =>
        Raises (RuntimeError
                  "Analyzer not initialized. Set load_spacy_model=True.")
    | Some engine =>
        let all_entities := PRESIDIO_ENTITIES ++ CUSTOM_ENTITIES in
        let results :=
          analyze engine text (language self) all_entities
            (score_threshold self) in
        let '(matches, pii_types_found) :=
          fold_left (detect_step text) results ([], []) in
        let matches := sorted start matches in
        Returns {| dr_text := text; matches := matches;
                   total_pii_count := len matches;
                   pii_types_found := pii_types_found |}
    end.

(** One entry of the list that [detect_with_context] returns. *)
Record MatchWithContext := {
  ctx_entity_type : str;
  matched_text : str;
  ctx_score : Q;
  ctx_position_start : Z;
  ctx_position_end : Z;
  context : str;
  context_position_start : Z;
  context_position_end : Z
}.

(** The body of the loop of [detect_with_context]. *)
Definition context_step (text : str) (context_window : Z)
    (matches_with_context : list MatchWithContext) (m : PIIMatch)
  : list MatchWithContext :=
  let matched := match m with {| text := t |} => t end in
  let context_start := Z.max 0 (start m - context_window) in
  let context_end := Z.min (len text) (end_ m + context_window) in
  matches_with_context
  ++ [ {| ctx_entity_type := entity_type m;
          matched_text := matched;
          ctx_score := score m;
          ctx_position_start := start m;
          ctx_position_end := end_ m;
          context := slice text context_start context_end;
          context_position_start := context_start;
          context_position_end := context_end |} ].

(** [PIIDetector.detect_with_context]; what [detect] raises goes through. *)
Definition detect_with_context (self : PIIDetector) (text : str)
    (context_window : Z) : outcome (list MatchWithContext) :=
  match detect self text with
  | Raises e => Raises e
  | Returns result =>
      Returns (fold_left (context_step text context_window)
                 (matches result) [])
  end.

(** [PIIDetector.get_supported_entities] *)
Definition get_supported_entities (self : PIIDetector) : list str :=
  PRESIDIO_ENTITIES ++ CUSTOM_ENTITIES.

(** The dict that [get_pii_summary] returns. *)
Record PIISummary := {
  total_pii_found : Z;
  unique_pii_types : Z;
  summary_pii_types_found : list str;
  type_counts : dict Z;
  has_sensitive_data : bool
}.

(** The body of the loop of [get_pii_summary]:
    [type_counts[entity_type] = type_counts.get(entity_type, 0) + 1]. *)
Definition count_step (type_counts : dict Z) (m : PIIMatch) : dict Z :=
  let entity_type := entity_type m in
  dict_set type_counts entity_type
    (dict_get_default type_counts entity_type 0 + 1).

(** [PIIDetector.get_pii_summary] *)
Definition get_pii_summary (self : PIIDetector) (text : str)
  : outcome PIISummary :=
  match detect self text with
  | Raises e => Raises e
  | Returns result =>
      let type_counts := fold_left count_step (matches result) [] in
      Returns {| total_pii_found := total_pii_count result;
                 unique_pii_types := len (pii_types_found result);
                 summary_pii_types_found := pii_types_found result;
                 type_counts := type_counts;
                 has_sensitive_data := has_pii result |}
  end.

End detector.

(** ** anonymizer.py *)

Module anonymizer.
Import Py.

(** Computations that draw from the Faker instance: its state goes in and
    comes out. *)
Definition Gen (F A : Type) : Type := F -> A * F.

Definition ret {F A} (a : A) : Gen F A := fun f => (a, f).

Definition bind {F A B} (c : Gen F A) (k : A -> Gen F B) : Gen F B :=
  fun f => let (a, f') := c f in k a f'.

Notation "x <- c ;; k" := (bind c (fun x => k))
  (at level 61, c at next level, right associativity).

(** A [for] loop that carries an accumulator. *)
Fixpoint for_each {F A B} (body : B -> A -> Gen F B) (l : list A) (acc : B)
  : Gen F B :=
  match l with
  | [] => ret acc
  | x :: l' => acc' <- body acc x ;; for_each body l' acc'
  end.

(** ["".join(g() for _ in range(n))] *)
Fixpoint join_times {F} (n : nat) (g : Gen F str) : Gen F str :=
  match n with
  | O => ret []
  | S n' => a <- g ;; b <- join_times n' g ;; ret (a ++ b)
  end.

(** The methods of [faker.Faker] that the anonymizer calls. *)
Class Faker (F : Type) := {
  name : Gen F str;
  email : Gen F str;
  phone_number : Gen F str;
  ssn : Gen F str;
  credit_card_number : Gen F str;
  bban : Gen F str;
  ipv4 : Gen F str;
  city : Gen F str;
  state_abbr : Gen F str;
  date : Gen F str;
  url : Gen F str;
  license_plate : Gen F str;
  address : Gen F str;
  last_name : Gen F str;
  country : Gen F str;
  iban : Gen F str;
  random_uppercase_letter : Gen F str;
  (** [random_number(digits=, fix_len=)] *)
  random_number : Z -> bool -> Gen F Z;
  (** [random_int(min=, max=)] *)
  random_int : Z -> Z -> Gen F Z;
  (** [random_element(elements)] on a string *)
  random_element : str -> Gen F str;
  (** [date_of_birth(minimum_age=, maximum_age=)]: year, month, day *)
  date_of_birth : Z -> Z -> Gen F (Z * Z * Z)
}.

Record ReplacementInfo := {
  info_entity_type : str;
  original_value : str;
  replacement_value : str;
  position_start : Z;
  position_end : Z;
  confidence_score : Q
}.

Record AnonymizationResult := {
  original_text : str;
  anonymized_text : str;
  replacements : list ReplacementInfo;
  total_replacements : Z
}.

Section PIIAnonymizer.
Context {F : Type} `{Faker F}.

(** [d.strftime("%m/%d/%Y")] *)
Definition strftime_mdY (d : Z * Z * Z) : str :=
  let '(year, month, day) := d in
  format_02d month ++ lit "/" ++ format_02d day ++ lit "/" ++ str_of_int year.

Definition _generate_drivers_license : Gen F str :=
  prefix <- random_uppercase_letter ;;
  number <- random_number 7 true ;;
  ret (prefix ++ str_of_int number).

Definition _generate_itin : Gen F str :=
  let area := 9 in
  group <- random_int 70 99 ;;
  serial <- random_number 4 true ;;
  ret (str_of_int area ++ format_02d group ++ lit "-" ++ str_of_int serial).

Definition _generate_passport_number : Gen F str :=
  n <- random_number 9 true ;; ret (str_of_int n).

Definition _generate_state_id : Gen F str :=
  prefix <- random_uppercase_letter ;;
  number <- random_number 8 true ;;
  ret (prefix ++ str_of_int number).

Definition _generate_health_insurance_id : Gen F str :=
  prefix <- join_times 3 random_uppercase_letter ;;
  number <- random_number 10 true ;;
  ret (prefix ++ str_of_int number).

Definition _generate_vin : Gen F str :=
  let chars := lit "ABCDEFGHJKLMNPRSTUVWXYZ0123456789" in
  join_times 17 (random_element chars).

(** [f"PREFIX{self.faker.random_number(digits=, fix_len=True)}"] *)
Definition prefixed_number (prefix : string) (digits : Z) : Gen F str :=
  n <- random_number digits true ;; ret (lit prefix ++ str_of_int n).

Definition _build_replacement_generators : dict (Gen F str) :=
  dict_of_items
    [ (lit "PERSON", name);
      (lit "EMAIL_ADDRESS", email);
      (lit "PHONE_NUMBER", phone_number);
      (lit "US_SSN", ssn);
      (lit "US_DRIVER_LICENSE", _generate_drivers_license);
      (lit "CREDIT_CARD", credit_card_number);
      (lit "US_BANK_NUMBER", bban);
      (lit "US_ITIN", _generate_itin);
      (lit "IP_ADDRESS", ipv4);
      (lit "LOCATION",
        c <- city ;; s <- state_abbr ;; ret (c ++ lit ", " ++ s));
      (lit "DATE_TIME", date);
      (lit "URL", url);
      (lit "US_PASSPORT", _generate_passport_number);
      (lit "STATE_ID", _generate_state_id);
      (lit "MEDICAL_RECORD", prefixed_number "MRN" 8);
      (lit "HEALTH_INSURANCE_ID", _generate_health_insurance_id);
      (lit "EMPLOYEE_ID", prefixed_number "EMP" 6);
      (lit "STUDENT_ID", prefixed_number "STU" 8);
      (lit "MILITARY_ID", n <- random_number 10 true ;; ret (str_of_int n));
      (lit "VEHICLE_REGISTRATION", _generate_vin);
      (lit "LICENSE_PLATE", license_plate);
      (lit "CREDENTIALS", ret (lit "[REDACTED_CREDENTIALS]"));
      (lit "US_ADDRESS",
        a <- address ;; ret (replace a [10%N] (lit ", ")));
      (lit "DATE_OF_BIRTH", d <- date_of_birth 18 90 ;; ret (strftime_mdY d));
      (lit "MOTHERS_MAIDEN_NAME", last_name);
      (lit "FINANCIAL_ACCOUNT", bban);
      (lit "NRP", country);
      (lit "MEDICAL_LICENSE", prefixed_number "ML" 8);
      (lit "IBAN_CODE", iban) ].

(** [self._replacement_generators], set once by [__init__]. *)
Definition _replacement_generators : dict (Gen F str) :=
  _build_replacement_generators.

(** [PIIAnonymizer._generate_replacement] *)
Definition _generate_replacement (entity_type : str) : Gen F str :=
  match dict_get _replacement_generators entity_type with
  | Some generator => generator
  | None => ret (lit "[REDACTED_" ++ entity_type ++ lit "]")
  end.

(** [result[: match.start] + fake_value + result[match.end :]] *)
Definition splice (result : str) (m : detector.PIIMatch) (fake_value : str)
  : str :=
  slice_to result (detector.start m) ++ fake_value
  ++ slice_from result (detector.end_ m).

(** The body of the loop of [anonymize]. *)
Definition anonymize_step (acc : str * list ReplacementInfo)
    (m : detector.PIIMatch) : Gen F (str * list ReplacementInfo) :=
  let '(anonymized_text, replacements) := acc in
  fake_value <- _generate_replacement (detector.entity_type m) ;;
  let replacement_info :=
    {| info_entity_type := detector.entity_type m;
       original_value := detector.text m;
       replacement_value := fake_value;
       position_start := detector.start m;
       position_end := detector.end_ m;
       confidence_score := detector.score m |} in
  ret (splice anonymized_text m fake_value, replacements ++ [replacement_info]).

(** [PIIAnonymizer.anonymize] *)
Definition anonymize (detection_result : detector.DetectionResult)
  : Gen F AnonymizationResult :=
  if negb (detector.has_pii detection_result) then
    ret {| original_text := detector.dr_text detection_result;
           anonymized_text := detector.dr_text detection_result;
           replacements := [];
           total_replacements := 0 |}
  else
    let sorted_matches :=
      sorted_reverse detector.start (detector.matches detection_result) in
    acc <- for_each anonymize_step sorted_matches
             (detector.dr_text detection_result, []) ;;
    let '(anonymized_text, replacements) := acc in
    let replacements := rev replacements in
    ret {| original_text := detector.dr_text detection_result;
           anonymized_text := anonymized_text;
           replacements := replacements;
           total_replacements := len replacements |}.

(** The body of the loop of [anonymize_text]. *)
Definition anonymize_text_step (result : str) (m : detector.PIIMatch)
  : Gen F str :=
  fake_value <- _generate_replacement (detector.entity_type m) ;;
  ret (splice result m fake_value).

(** [PIIAnonymizer.anonymize_text] *)
Definition anonymize_text (text : str) (matches : list detector.PIIMatch)
  : Gen F str :=
  match matches with
  | [] => ret text
  | _ :: _ =>
      let sorted_matches := sorted_reverse detector.start matches in
      for_each anonymize_text_step sorted_matches text
  end.

(** The body of the loop of [get_replacement_mapping]. *)
Definition mapping_step (mapping : dict str) (m : detector.PIIMatch)
  : Gen F (dict str) :=
  if negb (dict_contains mapping (detector.text m)) then
    v <- _generate_replacement (detector.entity_type m) ;;
    ret (dict_set mapping (detector.text m) v)
  else ret mapping.

(** [PIIAnonymizer.get_replacement_mapping] *)
Definition get_replacement_mapping
    (detection_result : detector.DetectionResult) : Gen F (dict str) :=
  for_each mapping_step (detector.matches detection_result) [].

End PIIAnonymizer.

(** [PIIAnonymizer.anonymize_with_mapping]; it draws nothing from Faker. *)
Definition anonymize_with_mapping (text : str) (mapping : dict str) : str :=
  fold_left
    (fun result kv => replace result (fst kv) (snd kv))
    (sorted_reverse (fun x => len (fst x)) (items mapping))
    text.

End anonymizer.

(** ** Objects to run the model on *)

Module samples.
Import Py.

(** A Faker whose state counts the draws and whose values are fixed. *)
Definition draw {A} (a : A) : anonymizer.Gen nat A := fun n => (a, S n).

#[export] Instance counting_faker : anonymizer.Faker nat := {|
  anonymizer.name := draw (lit "Jane Smith");
  anonymizer.email := draw (lit "jane@example.org");
  anonymizer.phone_number := draw (lit "555-0100");
  anonymizer.ssn := draw (lit "078-05-1120");
  anonymizer.credit_card_number := draw (lit "4000000000000002");
  anonymizer.bban := draw (lit "ABCD0123456789");
  anonymizer.ipv4 := draw (lit "192.0.2.1");
  anonymizer.city := draw (lit "Springfield");
  anonymizer.state_abbr := draw (lit "IL");
  anonymizer.date := draw (lit "2001-02-03");
  anonymizer.url := draw (lit "https://example.org/");
  anonymizer.license_plate := draw (lit "7ABC123");
  anonymizer.address := draw (lit "1 Main St") ;
  anonymizer.last_name := draw (lit "Smith");
  anonymizer.country := draw (lit "Iceland");
  anonymizer.iban := draw (lit "GB33BUKB20201555555555");
  anonymizer.random_uppercase_letter := draw (lit "Q");
  anonymizer.random_number := fun digits _ => draw (10 ^ (digits - 1));
  anonymizer.random_int := fun lo _ => draw lo;
  anonymizer.random_element := fun elements => draw (firstn 1 elements);
  anonymizer.date_of_birth := fun _ _ => draw (1980, 1, 2)
|}.

(** An analyzer that reports the same results whatever it is asked. *)
Definition fixed_engine (results : list detector.RecognizerResult)
  : detector.AnalyzerEngine :=
  {| detector.analyze := fun _ _ _ _ => results |}.

(** An analyzer that keeps, of fixed candidates, those that reach the
    threshold. *)
Definition threshold_engine (candidates : list detector.RecognizerResult)
  : detector.AnalyzerEngine :=
  {| detector.analyze := fun _ _ _ score_threshold =>
       filter (fun r => Qle_bool score_threshold (detector.rr_score r))
         candidates |}.

Definition passport_and_state_id : list detector.RecognizerResult :=
  [ {| detector.rr_entity_type := lit "US_PASSPORT";
       detector.rr_start := 10; detector.rr_end := 19;
       detector.rr_score := 0.3 |};
    {| detector.rr_entity_type := lit "STATE_ID";
       detector.rr_start := 10; detector.rr_end := 18;
       detector.rr_score := 0.2 |} ].

Definition person_ssn_email : list detector.RecognizerResult :=
  [ {| detector.rr_entity_type := lit "EMAIL_ADDRESS";
       detector.rr_start := 44; detector.rr_end := 60;
       detector.rr_score := 0.99 |};
    {| detector.rr_entity_type := lit "PERSON";
       detector.rr_start := 0; detector.rr_end := 8;
       detector.rr_score := 0.85 |};
    {| detector.rr_entity_type := lit "US_SSN";
       detector.rr_start := 18; detector.rr_end := 29;
       detector.rr_score := 0.95 |} ].

Definition john_doe_text : str :=
  lit "John Doe's SSN is 123-45-6789 and email is john@example.com".

(** The detection result of the test suite. *)
Definition sample_detection_result : detector.DetectionResult :=
  {| detector.dr_text := john_doe_text;
     detector.matches :=
       [ detector.new_PIIMatch (lit "PERSON") (lit "John Doe") 0 8 0.85;
         detector.new_PIIMatch (lit "US_SSN") (lit "123-45-6789") 18 29 0.95;
         detector.new_PIIMatch (lit "EMAIL_ADDRESS") (lit "john@example.com")
           44 60 0.99 ];
     detector.total_pii_count := 3;
     detector.pii_types_found :=
       [lit "PERSON"; lit "US_SSN"; lit "EMAIL_ADDRESS"] |}.

(** The text and the matches of the test of [anonymize_text]. *)
Definition contact_text : str := lit "Contact John at john@test.com".

Definition contact_matches : list detector.PIIMatch :=
  [ detector.new_PIIMatch (lit "PERSON") (lit "John") 8 12 0.8;
    detector.new_PIIMatch (lit "EMAIL_ADDRESS") (lit "john@test.com")
      16 29 0.95 ].

(** What an analyzer reports for them. *)
Definition contact_results : list detector.RecognizerResult :=
  [ {| detector.rr_entity_type := lit "PERSON";
       detector.rr_start := 8; detector.rr_end := 12;
       detector.rr_score := 0.8 |};
    {| detector.rr_entity_type := lit "EMAIL_ADDRESS";
       detector.rr_start := 16; detector.rr_end := 29;
       detector.rr_score := 0.95 |} ].

(** A match that ends beyond the text. *)
Definition out_of_range_result : detector.DetectionResult :=
  {| detector.dr_text := lit "abc";
     detector.matches := [detector.new_PIIMatch (lit "X") (lit "bc") 1 10 0.9];
     detector.total_pii_count := 1;
     detector.pii_types_found := [lit "X"] |}.

(** The same name detected twice. *)
Definition john_doe_twice : detector.DetectionResult :=
  {| detector.dr_text := lit "John Doe and John Doe again";
     detector.matches :=
       [ detector.new_PIIMatch (lit "PERSON") (lit "John Doe") 0 8 0.85;
         detector.new_PIIMatch (lit "PERSON") (lit "John Doe") 13 21 0.85 ];
     detector.total_pii_count := 2;
     detector.pii_types_found := [lit "PERSON"] |}.


(** Two matches whose spans intersect. *)
Definition overlapping_result : detector.DetectionResult :=
  {| detector.dr_text := lit "abcdef";
     detector.matches :=
       [ detector.new_PIIMatch (lit "X") (lit "abcd") 0 4 0.9;
         detector.new_PIIMatch (lit "Y") (lit "cdef") 2 6 0.9 ];
     detector.total_pii_count := 2;
     detector.pii_types_found := [lit "X"; lit "Y"] |}.

End samples.

(** ** Vocabulary of the properties *)

Module spec.
Import Py.

(** The span of a match is a non-empty interval [[start, end)] of the
    text. *)
Definition span_in_bounds (T : str) (m : detector.PIIMatch) : Prop :=
  0 <= detector.start m /\ detector.start m < detector.end_ m
  /\ detector.end_ m <= len T.

(** Two spans that do not intersect: one ends where the other starts, or
    before. *)
Definition disjoint (a b : detector.PIIMatch) : Prop :=
  detector.end_ a <= detector.start b \/ detector.end_ b <= detector.start a.

Definition non_overlapping (ms : list detector.PIIMatch) : Prop :=
  ForallOrdPairs disjoint ms.

Definition ascending_by_start (ms : list detector.PIIMatch) : Prop :=
  StronglySorted (fun a b => detector.start a <= detector.start b) ms.

(** The same for what the analyzer reports. *)
Definition results_disjoint (a b : detector.RecognizerResult) : Prop :=
  detector.rr_end a <= detector.rr_start b
  \/ detector.rr_end b <= detector.rr_start a.

Definition results_non_overlapping (rs : list detector.RecognizerResult)
  : Prop :=
  ForallOrdPairs results_disjoint rs.

(** The match that [detect] makes of one result of the analyzer. *)
Definition match_of_result (text : str) (r : detector.RecognizerResult)
  : detector.PIIMatch :=
  detector.new_PIIMatch (detector.rr_entity_type r)
    (slice text (detector.rr_start r) (detector.rr_end r))
    (detector.rr_start r) (detector.rr_end r) (detector.rr_score r).

(** The record of the ledger that belongs to a match replaced by
    [fake_value]. *)
Definition record_of (m : detector.PIIMatch) (fake_value : str)
  : anonymizer.ReplacementInfo :=
  {| anonymizer.info_entity_type := detector.entity_type m;
     anonymizer.original_value := detector.text m;
     anonymizer.replacement_value := fake_value;
     anonymizer.position_start := detector.start m;
     anonymizer.position_end := detector.end_ m;
     anonymizer.confidence_score := detector.score m |}.

(** What a record of the ledger says of the match it was made for. *)
Definition match_of_record (r : anonymizer.ReplacementInfo)
  : str * str * Z * Z * Q :=
  (anonymizer.info_entity_type r, anonymizer.original_value r,
   anonymizer.position_start r, anonymizer.position_end r,
   anonymizer.confidence_score r).

Definition match_fields (m : detector.PIIMatch) : str * str * Z * Z * Q :=
  (detector.entity_type m, detector.text m, detector.start m,
   detector.end_ m, detector.score m).

(** By how much a replacement changes the length of the text. *)
Definition growth (r : anonymizer.ReplacementInfo) : Z :=
  len (anonymizer.replacement_value r)
  - (anonymizer.position_end r - anonymizer.position_start r).

(** The cumulative length difference of the replacements whose span
    starts strictly before offset [p]. *)
Fixpoint shift_before (ledger : list anonymizer.ReplacementInfo) (p : Z) : Z :=
  match ledger with
  | [] => 0
  | r :: ledger' =>
      (if anonymizer.position_start r <? p then growth r else 0)
      + shift_before ledger' p
  end.

(** Offset [p] of the text lies in the span of no match. *)
Definition outside_spans (ms : list detector.PIIMatch) (p : Z) : Prop :=
  Forall (fun m => p < detector.start m \/ detector.end_ m <= p) ms.

(** The records that the loop of [anonymize] makes for matches taken in
    the order of [ms], each with the value drawn for it. *)
Fixpoint records {F} `{anonymizer.Faker F} (ms : list detector.PIIMatch)
  : anonymizer.Gen F (list anonymizer.ReplacementInfo) :=
  match ms with
  | [] => anonymizer.ret []
  | m :: ms' =>
      anonymizer.bind
        (anonymizer._generate_replacement (detector.entity_type m))
        (fun v =>
           anonymizer.bind (records ms')
             (fun rs => anonymizer.ret (record_of m v :: rs)))
  end.

(** The splice that a record of the ledger describes. *)
Definition apply_record (result : str) (r : anonymizer.ReplacementInfo)
  : str :=
  slice_to result (anonymizer.position_start r)
  ++ anonymizer.replacement_value r
  ++ slice_from result (anonymizer.position_end r).

(** The span of a record and of a match. *)
Definition span_of_record (r : anonymizer.ReplacementInfo) : Z * Z :=
  (anonymizer.position_start r, anonymizer.position_end r).

Definition span_of_match (m : detector.PIIMatch) : Z * Z :=
  (detector.start m, detector.end_ m).

(** Spans that follow one another from offset [pos] up to [n], each
    non-empty and starting where the one before ends, or later. *)
Fixpoint chain (pos : Z) (spans : list (Z * Z)) (n : Z) : Prop :=
  match spans with
  | [] => pos <= n
  | (s, e) :: spans' => pos <= s /\ s < e /\ chain e spans' n
  end.

(** The text from offset [pos] on in which the records of an ascending
    ledger are carried out: what lies between the spans is kept. *)
Fixpoint assemble (T : str) (pos : Z) (ledger : list anonymizer.ReplacementInfo)
  : str :=
  match ledger with
  | [] => slice_from T pos
  | r :: ledger' =>
      slice T pos (anonymizer.position_start r)
      ++ anonymizer.replacement_value r
      ++ assemble T (anonymizer.position_end r) ledger'
  end.

Definition ledger_ascending (ledger : list anonymizer.ReplacementInfo)
  : Prop :=
  StronglySorted
    (fun a b => anonymizer.position_start a <= anonymizer.position_start b)
    ledger.

(** The analyzer reports, at a threshold, nothing that it does not report
    at a lower one: [score_threshold] is a minimum score. *)
Definition threshold_is_minimum (engine : detector.AnalyzerEngine) : Prop :=
  forall text language entities (t1 t2 : Q) r,
    (t1 <= t2)%Q ->
    In r (detector.analyze engine text language entities t2) ->
    In r (detector.analyze engine text language entities t1).

(** [sep.join(pieces)] *)
Fixpoint join (sep : str) (pieces : list str) : str :=
  match pieces with
  | [] => []
  | [p] => p
  | p :: rest => p ++ sep ++ join sep rest
  end.

(** [k] does not start inside [p] when [p] is followed by [k]: the
    leftmost occurrence of [k] in [p ++ k ++ ...] is the one after [p]. *)
Definition clear_of (k p : str) : Prop :=
  forall i, (i < length p)%nat -> startswith (skipn i (p ++ k)) k = false.

(** The number of items of a dict under key [k]. *)
Definition entries {V} (d : dict V) (k : str) : nat :=
  length (filter (fun kv => str_eqb (fst kv) k) d).











(** What escaping makes of one character: the three characters of
    markup become entities, every other character stays. *)
Definition escape_char (c : char) : str :=
  if (c =? 38)%N then lit "&amp;"
  else if (c =? 60)%N then lit "&lt;"
  else if (c =? 62)%N then lit "&gt;"
  else [c].

(** The text has none of the characters [<] and [>]. *)
Definition markup_free (s : str) : Prop :=
  Forall (fun c => c <> 60%N /\ c <> 62%N) s.

End spec.

(** ** ocr.py *)

Module ocr.
Import Py.

Record PageText := {
  page_number : Z;
  text : str;
  confidence : Q;
  width : Z;
  height : Z
}.

Record OCRResult := {
  pages : list PageText;
  total_pages : Z;
  source_path : option str
}.

(** The property [OCRResult.full_text]:
    ["\n\n".join(page.text for page in self.pages)]. *)
Definition full_text (self : OCRResult) : str :=
  spec.join [10%N; 10%N] (map text (pages self)).

End ocr.

(** ** pdf_generator.py *)

Module pdf_generator.
Import Py.

(** The flowables of ReportLab that make a story. The style of a
    paragraph is named by its key in [self._styles]. *)
Inductive Flowable :=
| Paragraph (text : str) (style : str)
| Spacer (width height : Z)
| PageBreak.

(** [AnonymizedPDFGenerator._escape_text], which is
    [PDFReportGenerator._escape_text] too. *)
Definition _escape_text (text : str) : str :=
  let replacements :=
    [(lit "&", lit "&amp;"); (lit "<", lit "&lt;"); (lit ">", lit "&gt;")] in
  fold_left (fun text old_new => replace text (fst old_new) (snd old_new))
    replacements text.

(** [not s.strip()] *)
Definition blank (s : str) : bool :=
  match strip s with [] => true | _ :: _ => false end.

(** [enumerate(l)] *)
Definition enumerate {A} (l : list A) : list (Z * A) :=
  combine (map Z.of_nat (seq 0 (length l))) l.

(** The body of the loop over the paragraphs of a page. *)
Definition paragraph_step (story : list Flowable) (para : str)
  : list Flowable :=
  if blank para then story ++ [Spacer 1 6]
  else
    let escaped_text := _escape_text para in
    story ++ [Paragraph escaped_text (lit "body")].

(** The body of the loop over the pages in [_build_story]. *)
Definition page_step (pages : list str) (story : list Flowable)
    (i_page_text : Z * str) : list Flowable :=
  let '(i, page_text) := i_page_text in
  if blank page_text then story
  else
    let paragraphs := split page_text [10%N] in
    let story := fold_left paragraph_step paragraphs story in
    if i <? len pages - 1 then story ++ [Spacer 1 12] else story.

(** The start of a story: the title, when there is one that is not
    empty. *)
Definition title_flowables (title : option str) : list Flowable :=
  match title with
  | Some (c :: t) => [Paragraph (_escape_text (c :: t)) (lit "title");
                      Spacer 1 12]
  | _ => []
  end.

(** [AnonymizedPDFGenerator._build_story] *)
Definition _build_story (text : str) (title : option str) : list Flowable :=
  let story := title_flowables title in
  let pages := split text [10%N; 10%N] in
  fold_left (page_step pages) (enumerate pages) story.

(** The body of the loop over the pages in [generate_multi_page]. *)
Definition multi_page_step (page_texts : list str) (story : list Flowable)
    (i_page_text : Z * str) : list Flowable :=
  let '(i, page_text) := i_page_text in
  if blank page_text then story
  else
    let paragraphs := split page_text [10%N] in
    let story := fold_left paragraph_step paragraphs story in
    if i <? len page_texts - 1 then story ++ [PageBreak] else story.

(** The story that [AnonymizedPDFGenerator.generate_multi_page] builds
    and hands to [doc.build]. *)
Definition generate_multi_page_story (page_texts : list str)
    (title : option str) : list Flowable :=
  let story := title_flowables title in
  fold_left (multi_page_step page_texts) (enumerate page_texts) story.

End pdf_generator.

(** ** Vocabulary of the properties of a story *)

Module layout.
Import Py.
Import pdf_generator.

(** What a story of [_build_story] is made of: paragraphs in the title
    or the body style whose text is not empty and has no markup
    character left, and spacers one unit wide and 6 or 12 high. *)
Definition well_formed (fl : Flowable) : Prop :=
  match fl with
  | Paragraph text style =>
      spec.markup_free text /\ text <> []
      /\ (style = lit "title" \/ style = lit "body")
  | Spacer width height => width = 1 /\ (height = 6 \/ height = 12)
  | PageBreak => False
  end.

(** The flowable of one line of a page. *)
Definition line_flowable (para : str) : Flowable :=
  if blank para then Spacer 1 6
  else Paragraph (_escape_text para) (lit "body").

(** A page break turned into the spacer that separates pages. *)
Definition spacer_for_break (fl : Flowable) : Flowable :=
  match fl with
  | PageBreak => Spacer 1 12
  | _ => fl
  end.

Definition is_break (fl : Flowable) : bool :=
  match fl with
  | PageBreak => true
  | _ => false
  end.

(** The number of page breaks of a story. *)
Definition page_breaks (story : list Flowable) : nat :=
  length (filter is_break story).

(** The last character is not a newline. *)
Definition open_ended (s : str) : Prop := last s 0%N <> 10%N.

(** [s] is [n] decimal digits. *)
Definition digits (n : nat) (s : str) : bool :=
  (length s =? n)%nat && forallb (fun c => (48 <=? c) && (c <=? 57))%N s.

End layout.

(** ** Facts about the built-ins *)

Import Py.
Import spec.
Import samples.

Lemma str_eqb_eq (a b : str) : str_eqb a b = true <-> a = b.
Proof.
  revert b; induction a as [|x a IH]; intros [|y b]; simpl;
    try (split; (reflexivity || discriminate)).
  rewrite andb_true_iff, N.eqb_eq, IH.
  split; [intros [-> ->]; reflexivity | intros E; inversion E; auto].
Qed.

Lemma str_eqb_refl (a : str) : str_eqb a a = true.
Proof. apply str_eqb_eq; reflexivity. Qed.

Lemma str_eqb_neq (a b : str) : str_eqb a b = false <-> a <> b.
Proof.
  rewrite <- str_eqb_eq. destruct (str_eqb a b); split; congruence.
Qed.

Lemma dict_get_set_same {V} (d : dict V) k v :
  dict_get (dict_set d k v) k = Some v.
Proof.
  induction d as [|[k' v'] d IH]; simpl.
  - now rewrite str_eqb_refl.
  - destruct (str_eqb k' k) eqn:E; simpl; rewrite E; auto.
Qed.

Lemma dict_get_set_other {V} (d : dict V) k k' v :
  k <> k' -> dict_get (dict_set d k v) k' = dict_get d k'.
Proof.
  intros Hne. induction d as [|[k0 v0] d IH]; simpl.
  - apply str_eqb_neq in Hne. now rewrite Hne.
  - destruct (str_eqb k0 k) eqn:E; simpl.
    + apply str_eqb_eq in E; subst k0.
      apply str_eqb_neq in Hne. now rewrite Hne.
    + now rewrite IH.
Qed.

Lemma dict_get_fold_set_notin {V} (l : list (str * V)) (d : dict V) k :
  (forall kv, In kv l -> fst kv <> k) ->
  dict_get (fold_left (fun d kv => dict_set d (fst kv) (snd kv)) l d) k
  = dict_get d k.
Proof.
  revert d; induction l as [|[k0 v0] l IH]; intros d Hl; simpl; auto.
  rewrite IH by (intros kv Hkv; apply Hl; now right).
  apply dict_get_set_other. apply (Hl (k0, v0)). now left.
Qed.

Lemma lstrip_all_space (s : str) : forallb isspace s = true -> lstrip s = [].
Proof.
  induction s as [|c s IH]; simpl; auto.
  rewrite andb_true_iff. intros [Hc Hs]. now rewrite Hc, IH.
Qed.

Lemma forallb_rev {A} (p : A -> bool) (l : list A) :
  forallb p (rev l) = forallb p l.
Proof.
  induction l as [|x l IH]; simpl; auto.
  rewrite forallb_app, IH. simpl. rewrite andb_true_r. apply andb_comm.
Qed.

Lemma strip_all_space (s : str) : forallb isspace s = true -> strip s = [].
Proof.
  intros Hs. unfold strip, rstrip.
  rewrite (lstrip_all_space (rev s)) by now rewrite forallb_rev.
  reflexivity.
Qed.

(** ** The generator's fallback *)

(** C7. For every entity type that has no registered generator,
    [_generate_replacement] returns the placeholder made of the prefix
    ["[REDACTED_"], the entity type and ["]"]; it draws nothing from
    Faker and does not fail. *)
Theorem generate_replacement_placeholder
    {F : Type} `{anonymizer.Faker F} (entity_type : str) (f : F) :
  dict_contains (anonymizer._replacement_generators (F := F)) entity_type
  = false ->
  anonymizer._generate_replacement entity_type f
  = (lit "[REDACTED_" ++ entity_type ++ lit "]", f).
Proof.
  unfold dict_contains, anonymizer._generate_replacement.
  destruct (dict_get anonymizer._replacement_generators entity_type);
    [discriminate | reflexivity].
Qed.

Lemma generate_replacement_placeholder_witness :
  dict_contains (anonymizer._replacement_generators (F := nat))
    (lit "UNKNOWN_TYPE") = false
  /\ anonymizer._generate_replacement (lit "UNKNOWN_TYPE") 7%nat
     = (lit "[REDACTED_UNKNOWN_TYPE]", 7%nat).
Proof.
  split; [reflexivity |].
  apply (generate_replacement_placeholder (lit "UNKNOWN_TYPE") 7%nat).
  reflexivity.
Defined.

(** ** Blank text *)

Lemma detect_of_blank (self : detector.PIIDetector) (text : str) :
  forallb isspace text = true ->
  detector.detect self text
  = Returns {| detector.dr_text := text; detector.matches := [];
               detector.total_pii_count := 0;
               detector.pii_types_found := [] |}.
Proof.
  intros Hblank. unfold detector.detect.
  rewrite (strip_all_space text Hblank).
  now rewrite orb_true_r.
Qed.

(** C8. For a text that is empty or all whitespace, [detect] returns a
    result with no match, a count of zero and no type found; it does so
    whatever the detector holds as analyzer, even none. *)
Theorem detect_blank_text (self : detector.PIIDetector) (text : str) :
  (text = [] \/ Forall (fun c => isspace c = true) text) ->
  detector.detect self text
  = Returns {| detector.dr_text := text; detector.matches := [];
               detector.total_pii_count := 0;
               detector.pii_types_found := [] |}.
Proof.
  intros Hblank. apply detect_of_blank.
  destruct Hblank as [-> | Hall]; [reflexivity |].
  apply forallb_forall. intros c Hc.
  rewrite Forall_forall in Hall. now apply Hall.
Qed.

Lemma detect_blank_text_witness :
  forallb isspace (lit "   ") = true
  /\ detector.detect
       (detector.PIIDetector_init (lit "en") 0.5 false (samples.fixed_engine []))
       (lit "   ")
     = Returns {| detector.dr_text := lit "   "; detector.matches := [];
                  detector.total_pii_count := 0;
                  detector.pii_types_found := [] |}.
Proof.
  split; [reflexivity |].
  apply (detect_blank_text _ (lit "   ")).
  right. repeat constructor.
Defined.

(** ** The no-op of the anonymizer *)

(** C5. With an empty list of matches, [anonymize] returns the text
    unchanged with an empty ledger and a count of zero, whatever the
    count of the detection result says, and [anonymize_text] returns the
    text; neither draws from Faker nor fails. *)
Theorem anonymize_no_matches
    {F : Type} `{anonymizer.Faker F} (text : str) (count : Z)
    (found : list str) (f : F) :
  anonymizer.anonymize
    {| detector.dr_text := text; detector.matches := [];
       detector.total_pii_count := count;
       detector.pii_types_found := found |} f
  = ({| anonymizer.original_text := text;
        anonymizer.anonymized_text := text;
        anonymizer.replacements := [];
        anonymizer.total_replacements := 0 |}, f)
  /\ anonymizer.anonymize_text text [] f = (text, f).
Proof.
  split; [| reflexivity].
  unfold anonymizer.anonymize, detector.has_pii; simpl.
  destruct (0 <? count); reflexivity.
Qed.

(** ** The metadata of a match *)

Lemma pii_type_of_new_match entity_type text start end_ score :
  detector.pii_type (detector.new_PIIMatch entity_type text start end_ score)
  = dict_get pii_types.PII_TYPE_MAP entity_type.
Proof. reflexivity. Qed.

(** C10. The metadata of a match is looked up under [PIIType.code], not
    under the entity name of the detection: a match constructed (without
    an explicit [pii_type]) with an entity type that is the code of no
    PII type has [pii_type] [None], which is so for the Presidio names
    US_SSN, EMAIL_ADDRESS, PERSON, PHONE_NUMBER and US_PASSPORT; a match
    constructed with the code of a PII type gets that PII type, which is
    so for CREDIT_CARD, IP_ADDRESS, STATE_ID and MEDICAL_RECORD. *)
Theorem pii_type_keyed_by_code :
  (forall entity_type text start end_ score,
      (forall pii, In pii pii_types.US_PII_TYPES ->
                   pii_types.code pii <> entity_type) ->
      detector.pii_type
        (detector.new_PIIMatch entity_type text start end_ score) = None)
  /\ (forall pii text start end_ score,
      In pii pii_types.US_PII_TYPES ->
      detector.pii_type
        (detector.new_PIIMatch (pii_types.code pii) text start end_ score)
      = Some pii)
  /\ Forall (fun e =>
       (forall pii, In pii pii_types.US_PII_TYPES ->
                    pii_types.code pii <> lit e)
       /\ forall text start end_ score,
           detector.pii_type
             (detector.new_PIIMatch (lit e) text start end_ score) = None)
       ["US_SSN"; "EMAIL_ADDRESS"; "PERSON"; "PHONE_NUMBER";
        "US_PASSPORT"]%string
  /\ Forall (fun e =>
       forall text start end_ score,
       exists pii,
         In pii pii_types.US_PII_TYPES /\ pii_types.code pii = lit e
         /\ detector.pii_type
              (detector.new_PIIMatch (lit e) text start end_ score)
            = Some pii)
       ["CREDIT_CARD"; "IP_ADDRESS"; "STATE_ID"; "MEDICAL_RECORD"]%string.
Proof.
  assert (Hnone : forall entity_type text start end_ score,
      (forall pii, In pii pii_types.US_PII_TYPES ->
                   pii_types.code pii <> entity_type) ->
      detector.pii_type
        (detector.new_PIIMatch entity_type text start end_ score) = None).
  { intros e text s e' sc Hno. rewrite pii_type_of_new_match.
    unfold pii_types.PII_TYPE_MAP, dict_of_items.
    rewrite dict_get_fold_set_notin; [reflexivity |].
    intros kv Hkv. apply in_map_iff in Hkv as (pii & <- & Hpii).
    now apply Hno. }
  assert (Hsome : forall pii text start end_ score,
      In pii pii_types.US_PII_TYPES ->
      detector.pii_type
        (detector.new_PIIMatch (pii_types.code pii) text start end_ score)
      = Some pii).
  { intros pii text s e' sc Hin. rewrite pii_type_of_new_match.
    unfold pii_types.US_PII_TYPES in Hin. simpl in Hin.
    repeat (destruct Hin as [<- | Hin]; [vm_compute; reflexivity |]).
    contradiction. }
  split; [exact Hnone |]. split; [exact Hsome |]. split.
  - repeat constructor;
      try (intros text s e' sc; vm_compute; reflexivity);
      intros pii Hin; unfold pii_types.US_PII_TYPES in Hin; simpl in Hin;
      repeat (destruct Hin as [<- | Hin]; [vm_compute; discriminate |]);
      contradiction.
  - repeat constructor; intros text s e' sc;
      match goal with
      | |- context [detector.new_PIIMatch ?k _ _ _ _] =>
          destruct (dict_get pii_types.PII_TYPE_MAP k) as [pii |] eqn:E;
            [| vm_compute in E; discriminate]
      end;
      exists pii; vm_compute in E; injection E as <-;
      (split; [unfold pii_types.US_PII_TYPES; simpl; tauto |]);
      split; vm_compute; reflexivity.
Qed.

Lemma pii_type_keyed_by_code_witness :
  (forall pii, In pii pii_types.US_PII_TYPES ->
               pii_types.code pii <> lit "US_SSN")
  /\ detector.pii_type
       (detector.new_PIIMatch (lit "US_SSN") (lit "123-45-6789") 0 11 0.95)
     = None
  /\ Forall (fun pii =>
       In pii pii_types.US_PII_TYPES
       /\ detector.pii_type
            (detector.new_PIIMatch (pii_types.code pii) (lit "123-45-6789")
               0 11 0.95)
          = Some pii)
       (firstn 1 pii_types.US_PII_TYPES).
Proof.
  destruct pii_type_keyed_by_code as (Hnone & Hsome & Hex & _).
  inversion Hex as [| e l [Hno _] _]; subst.
  split; [exact Hno |]. split.
  - apply Hnone. exact Hno.
  - unfold pii_types.US_PII_TYPES; simpl firstn.
    constructor; [| constructor].
    split; [left; reflexivity |].
    apply Hsome. left; reflexivity.
Defined.

(** ** The stable sort *)

Section StableSort.
Context {A : Type} (before : A -> A -> bool) (R : A -> A -> Prop).
Hypothesis before_true : forall y x, before y x = true -> R y x.
Hypothesis before_false : forall y x, before y x = false -> R x y.
Hypothesis R_trans : forall a b c, R a b -> R b c -> R a c.

Lemma insert_stable_perm (x : A) (l : list A) :
  Permutation (insert_stable before x l) (x :: l).
Proof.
  induction l as [|y l IH]; simpl; auto.
  destruct (before y x); auto.
  rewrite IH. apply perm_swap.
Qed.

Lemma sort_stable_perm (l : list A) : Permutation (sort_stable before l) l.
Proof.
  induction l as [|x l IH]; simpl; auto.
  rewrite insert_stable_perm. now constructor.
Qed.

Lemma insert_stable_sorted (x : A) (l : list A) :
  StronglySorted R l -> StronglySorted R (insert_stable before x l).
Proof.
  induction 1 as [|y l Hl IH Hy]; simpl.
  - repeat constructor.
  - destruct (before y x) eqn:E.
    + constructor; auto.
      eapply Permutation_Forall;
        [symmetry; apply insert_stable_perm |].
      constructor; auto.
    + constructor; [constructor; auto |].
      constructor; auto.
      eapply Forall_impl; [| exact Hy].
      intros z Hz. eapply R_trans; eauto.
Qed.

Lemma sort_stable_sorted (l : list A) : StronglySorted R (sort_stable before l).
Proof.
  induction l as [|x l IH]; simpl; [constructor |].
  now apply insert_stable_sorted.
Qed.

End StableSort.

Lemma sorted_perm {A} (key : A -> Z) (l : list A) :
  Permutation (sorted key l) l.
Proof. apply sort_stable_perm. Qed.

Lemma sorted_ascending {A} (key : A -> Z) (l : list A) :
  StronglySorted (fun a b => key a <= key b) (sorted key l).
Proof.
  apply sort_stable_sorted; intros; lia.
Qed.

Lemma sorted_reverse_perm {A} (key : A -> Z) (l : list A) :
  Permutation (sorted_reverse key l) l.
Proof. apply sort_stable_perm. Qed.

Lemma sorted_reverse_descending {A} (key : A -> Z) (l : list A) :
  StronglySorted (fun a b => key b <= key a) (sorted_reverse key l).
Proof.
  apply sort_stable_sorted; intros; lia.
Qed.

(** ** Pairwise relations under reordering *)

Lemma ForallOrdPairs_cons_inv {A} (R : A -> A -> Prop) x l :
  ForallOrdPairs R (x :: l) -> Forall (R x) l /\ ForallOrdPairs R l.
Proof. intros H; inversion H; auto. Qed.

Lemma ForallOrdPairs_perm {A} (R : A -> A -> Prop) (l l' : list A) :
  (forall a b, R a b -> R b a) ->
  Permutation l l' -> ForallOrdPairs R l -> ForallOrdPairs R l'.
Proof.
  intros Hsym Hp. induction Hp as [| x l l' Hp IH | x y l | l l' l'' ? ? ? ?];
    intros H; auto.
  - apply ForallOrdPairs_cons_inv in H as [Hx Hl].
    constructor; auto. eapply Permutation_Forall; eauto.
  - apply ForallOrdPairs_cons_inv in H as [Hy H].
    apply ForallOrdPairs_cons_inv in H as [Hx Hl].
    inversion Hy as [| ? ? Hyx Hyl]; subst.
    constructor; [constructor; auto |].
    constructor; auto.
Qed.

Lemma ForallOrdPairs_map {A B} (f : A -> B) (R : B -> B -> Prop) (l : list A) :
  ForallOrdPairs R (map f l) <-> ForallOrdPairs (fun a b => R (f a) (f b)) l.
Proof.
  induction l as [|x l IH]; simpl.
  - split; constructor.
  - split; intros H; apply ForallOrdPairs_cons_inv in H as [Hx Hl];
      constructor; try (apply IH; assumption).
    + rewrite Forall_map in Hx. exact Hx.
    + rewrite Forall_map. exact Hx.
Qed.

Lemma disjoint_sym a b : disjoint a b -> disjoint b a.
Proof. unfold disjoint; tauto. Qed.

(** ** The detector *)

Lemma lstrip_nil_iff (s : str) : lstrip s = [] <-> forallb isspace s = true.
Proof.
  split; [| apply lstrip_all_space].
  induction s as [|c s IH]; simpl; auto.
  destruct (isspace c); [exact IH | discriminate].
Qed.

Lemma strip_nil_iff (s : str) : strip s = [] <-> forallb isspace s = true.
Proof.
  split; [| apply strip_all_space].
  unfold strip, rstrip. intros H.
  apply lstrip_nil_iff in H. rewrite forallb_rev in H.
  destruct (lstrip (rev s)) as [|c r] eqn:E.
  - apply lstrip_nil_iff in E. now rewrite forallb_rev in E.
  - exfalso.
    assert (Hc : isspace c = false).
    { clear H. induction (rev s) as [|d t IH]; simpl in E; [discriminate |].
      destruct (isspace d) eqn:Ed; auto. inversion E; subst; auto. }
    simpl in H. rewrite Hc in H. discriminate.
Qed.

Lemma detect_loop (text : str) (results : list detector.RecognizerResult)
    (ms : list detector.PIIMatch) (found : list str) :
  fst (fold_left (detector.detect_step text) results (ms, found))
  = ms ++ map (match_of_result text) results.
Proof.
  revert ms found; induction results as [|r rs IH]; intros ms found; simpl.
  - now rewrite app_nil_r.
  - rewrite IH, <- app_assoc. reflexivity.
Qed.

(** What [detect] returns for a text that is not blank, when it holds an
    analyzer. *)
Lemma detect_with_engine (engine : detector.AnalyzerEngine)
    (language : str) (threshold : Q) (text : str) :
  forallb isspace text = false ->
  exists found,
    detector.detect
      {| detector.language := language;
         detector.score_threshold := threshold;
         detector.analyzer := Some engine |} text
    = Returns
        {| detector.dr_text := text;
           detector.matches :=
             sorted detector.start
               (map (match_of_result text)
                  (detector.analyze engine text language
                     (detector.PRESIDIO_ENTITIES ++ detector.CUSTOM_ENTITIES)
                     threshold));
           detector.total_pii_count :=
             len (sorted detector.start
                    (map (match_of_result text)
                       (detector.analyze engine text language
                          (detector.PRESIDIO_ENTITIES
                           ++ detector.CUSTOM_ENTITIES)
                          threshold)));
           detector.pii_types_found := found |}.
Proof.
  intros Hnb. unfold detector.detect.
  assert (Hs : strip text <> []).
  { intros E. apply strip_nil_iff in E. congruence. }
  destruct text as [|c text]; [discriminate |].
  destruct (strip (c :: text)) as [|c' s'] eqn:Es; [congruence |].
  cbn [orb detector.analyzer detector.language detector.score_threshold].
  set (results := detector.analyze _ _ _ _ _).
  pose proof (detect_loop (c :: text) results [] []) as Hloop.
  destruct (fold_left _ results ([], [])) as [ms found].
  simpl in Hloop. subst ms. exists found. reflexivity.
Qed.

Lemma results_of_matches (text : str) (rs : list detector.RecognizerResult) :
  non_overlapping (map (match_of_result text) rs)
  <-> results_non_overlapping rs.
Proof.
  unfold non_overlapping, results_non_overlapping.
  rewrite ForallOrdPairs_map. reflexivity.
Qed.

(** C2, as the code has it. [detect] sorts what the analyzer reports and
    resolves no overlap itself: with an analyzer, it returns a result
    whose matches are in ascending order of start and counted by
    [total_pii_count]; for a blank text there is none, and otherwise they
    are the analyzer's results, one match for each, so that they are
    pairwise non-overlapping exactly when the analyzer's results are. *)
Theorem detect_sorts_analyzer_results (engine : detector.AnalyzerEngine)
    (language : str) (threshold : Q) (text : str) :
  let results :=
    detector.analyze engine text language
      (detector.PRESIDIO_ENTITIES ++ detector.CUSTOM_ENTITIES) threshold in
  exists dr,
    detector.detect
      {| detector.language := language;
         detector.score_threshold := threshold;
         detector.analyzer := Some engine |} text = Returns dr
    /\ ascending_by_start (detector.matches dr)
    /\ detector.total_pii_count dr = len (detector.matches dr)
    /\ (forallb isspace text = true -> detector.matches dr = [])
    /\ (forallb isspace text = false ->
        Permutation (detector.matches dr) (map (match_of_result text) results)
        /\ (non_overlapping (detector.matches dr)
            <-> results_non_overlapping results)).
Proof.
  intros results.
  destruct (forallb isspace text) eqn:Hb.
  - rewrite (detect_of_blank _ text Hb). eexists. split; [reflexivity |].
    simpl. repeat split; try discriminate; constructor.
  - destruct (detect_with_engine engine language threshold text Hb)
      as [found ->].
    eexists. split; [reflexivity |]. simpl. fold results.
    split; [apply sorted_ascending |].
    split; [reflexivity |]. split; [discriminate |]. intros _.
    split; [apply sorted_perm |].
    rewrite <- (results_of_matches text results).
    split; apply ForallOrdPairs_perm;
      auto using disjoint_sym, sorted_perm, Permutation_sym.
Qed.

Lemma detect_sorts_analyzer_results_witness :
  exists dr,
    detector.detect
      (detector.PIIDetector_init (lit "en") 0.5 true
         (fixed_engine person_ssn_email)) john_doe_text = Returns dr
    /\ map detector.start (detector.matches dr) = [0; 18; 44]
    /\ non_overlapping (detector.matches dr).
Proof.
  destruct (detect_sorts_analyzer_results (fixed_engine person_ssn_email)
              (lit "en") 0.5 john_doe_text)
    as (dr & Hret & _ & _ & _ & Hfull).
  exists dr. split; [exact Hret |].
  destruct (Hfull eq_refl) as [_ Hiff].
  split.
  - vm_compute in Hret. injection Hret as <-. reflexivity.
  - apply Hiff. unfold results_non_overlapping, results_disjoint.
    simpl. repeat constructor; simpl; lia.
Defined.

(** C2 fails as stated: when the analyzer reports a passport number at
    [10, 19) and a state ID at [10, 18), [detect] returns both matches. *)
Lemma detect_keeps_overlapping_results :
  exists dr,
    detector.detect
      (detector.PIIDetector_init (lit "en") 0.2 true
         (fixed_engine passport_and_state_id))
      (lit "Passport: 123456789 is on file") = Returns dr
    /\ map (fun m => (detector.entity_type m, detector.start m,
                      detector.end_ m)) (detector.matches dr)
       = [(lit "US_PASSPORT", 10, 19); (lit "STATE_ID", 10, 18)]
    /\ ~ non_overlapping (detector.matches dr).
Proof.
  eexists. split; [vm_compute; reflexivity |]. split; [reflexivity |].
  intros Hno. apply ForallOrdPairs_cons_inv in Hno as [Hfirst _].
  inversion Hfirst as [| ? ? Hd _]; subst.
  unfold disjoint in Hd; simpl in Hd. lia.
Qed.

(** ** The score threshold *)

Lemma threshold_engine_is_minimum (candidates : list detector.RecognizerResult) :
  threshold_is_minimum (threshold_engine candidates).
Proof.
  intros text language entities t1 t2 r Hle. simpl.
  rewrite !filter_In, !Qle_bool_iff. intros [Hin Ht2].
  split; [exact Hin |]. eapply Qle_trans; eauto.
Qed.

(** C9. [detect] hands its threshold to the analyzer and filters nothing
    itself. For a fixed text and a fixed analyzer that treats
    [score_threshold] as a minimum score (at a threshold it reports
    nothing that it does not report at a lower one), every match that
    the detector returns with threshold [t2] is returned with any
    threshold [t1 <= t2]. *)
Theorem detect_threshold_monotone (engine : detector.AnalyzerEngine)
    (language : str) (text : str) (t1 t2 : Q) :
  threshold_is_minimum engine ->
  (t1 <= t2)%Q ->
  exists dr1 dr2,
    detector.detect
      {| detector.language := language; detector.score_threshold := t1;
         detector.analyzer := Some engine |} text = Returns dr1
    /\ detector.detect
         {| detector.language := language; detector.score_threshold := t2;
            detector.analyzer := Some engine |} text = Returns dr2
    /\ forall m, In m (detector.matches dr2) -> In m (detector.matches dr1).
Proof.
  intros Hmin Hle.
  destruct (forallb isspace text) eqn:Hb.
  - rewrite !(detect_of_blank _ text Hb).
    do 2 eexists. split; [reflexivity |]. split; [reflexivity |]. auto.
  - destruct (detect_with_engine engine language t1 text Hb) as [f1 ->].
    destruct (detect_with_engine engine language t2 text Hb) as [f2 ->].
    do 2 eexists. split; [reflexivity |]. split; [reflexivity |].
    simpl. intros m Hm.
    apply (Permutation_in _ (sorted_perm _ _)) in Hm.
    apply (Permutation_in _ (Permutation_sym (sorted_perm _ _))).
    apply in_map_iff in Hm as (r & <- & Hr).
    apply in_map. eapply Hmin; eauto.
Qed.

Lemma detect_threshold_monotone_witness :
  threshold_is_minimum (threshold_engine person_ssn_email)
  /\ (0.5 <= 0.9)%Q
  /\ exists dr1 dr2,
      detector.detect
        {| detector.language := lit "en"; detector.score_threshold := 0.5;
           detector.analyzer := Some (threshold_engine person_ssn_email) |}
        john_doe_text = Returns dr1
      /\ detector.detect
           {| detector.language := lit "en"; detector.score_threshold := 0.9;
              detector.analyzer := Some (threshold_engine person_ssn_email) |}
           john_doe_text = Returns dr2
      /\ forall m, In m (detector.matches dr2) -> In m (detector.matches dr1).
Proof.
  split; [apply threshold_engine_is_minimum |].
  split; [vm_compute; discriminate |].
  apply (detect_threshold_monotone (threshold_engine person_ssn_email)
           (lit "en") john_doe_text 0.5 0.9).
  - apply threshold_engine_is_minimum.
  - vm_compute; discriminate.
Defined.

(** ** Slices at offsets that are not negative *)

Lemma len_nonneg {A} (s : list A) : 0 <= len s.
Proof. unfold len; lia. Qed.

Lemma slice_to_nonneg {A} (s : list A) (i : Z) :
  0 <= i -> slice_to s i = firstn (Z.to_nat i) s.
Proof.
  intros Hi. unfold slice_to, adjust, len.
  destruct (i <? 0) eqn:E; [lia |].
  destruct (Z.le_gt_cases i (Z.of_nat (length s))) as [Hle | Hgt].
  - now rewrite Z.min_l.
  - rewrite Z.min_r by lia. rewrite Nat2Z.id.
    rewrite !firstn_all2; auto; lia.
Qed.

Lemma slice_from_nonneg {A} (s : list A) (i : Z) :
  0 <= i -> slice_from s i = skipn (Z.to_nat i) s.
Proof.
  intros Hi. unfold slice_from, adjust, len.
  destruct (i <? 0) eqn:E; [lia |].
  destruct (Z.le_gt_cases i (Z.of_nat (length s))) as [Hle | Hgt].
  - now rewrite Z.min_l.
  - rewrite Z.min_r by lia. rewrite Nat2Z.id.
    rewrite !skipn_all2; auto; lia.
Qed.

Lemma slice_nonneg {A} (s : list A) (i j : Z) :
  0 <= i -> i <= j ->
  slice s i j = firstn (Z.to_nat (j - i)) (skipn (Z.to_nat i) s).
Proof.
  intros Hi Hij. unfold slice, adjust, len.
  destruct (i <? 0) eqn:Ei; [lia |].
  destruct (j <? 0) eqn:Ej; [lia |].
  set (n := Z.of_nat (length s)).
  destruct (Z.le_gt_cases j n) as [Hj | Hj].
  - rewrite !Z.min_l by lia. reflexivity.
  - rewrite (Z.min_r j) by lia.
    destruct (Z.le_gt_cases i n) as [Hin | Hin].
    + rewrite Z.min_l by lia.
      rewrite !firstn_all2; auto; rewrite length_skipn; lia.
    + rewrite Z.min_r by lia.
      rewrite (skipn_all2 (n := Z.to_nat i)) by lia.
      rewrite firstn_nil. replace (Z.to_nat (n - n)) with 0%nat by lia.
      reflexivity.
Qed.

Lemma firstn_then_slice {A} (s : list A) (p q : nat) :
  (p <= q)%nat -> firstn p s ++ firstn (q - p) (skipn p s) = firstn q s.
Proof.
  intros Hpq.
  rewrite <- (firstn_skipn p (firstn q s)).
  rewrite firstn_firstn, Nat.min_l by lia.
  now rewrite skipn_firstn_comm.
Qed.

(** ** The loops of the anonymizer *)

Section Loops.
Context {F : Type} `{anonymizer.Faker F}.

Lemma anonymize_loop (sm : list detector.PIIMatch) (cur : str)
    (reps : list anonymizer.ReplacementInfo) (f : F) :
  anonymizer.for_each anonymizer.anonymize_step sm (cur, reps) f
  = ((fold_left apply_record (fst (records sm f)) cur,
      reps ++ fst (records sm f)),
     snd (records sm f)).
Proof.
  revert cur reps f; induction sm as [|m sm IH]; intros cur reps f.
  - simpl. unfold anonymizer.ret. now rewrite app_nil_r.
  - simpl. unfold anonymizer.bind, anonymizer.anonymize_step at 1.
    unfold anonymizer.bind.
    destruct (anonymizer._generate_replacement (detector.entity_type m) f)
      as [v f1].
    unfold anonymizer.ret at 1. rewrite IH.
    destruct (records sm f1) as [rs f2]. simpl.
    rewrite <- app_assoc. reflexivity.
Qed.

Lemma anonymize_text_loop (sm : list detector.PIIMatch) (cur : str) (f : F) :
  anonymizer.for_each anonymizer.anonymize_text_step sm cur f
  = (fold_left apply_record (fst (records sm f)) cur, snd (records sm f)).
Proof.
  revert cur f; induction sm as [|m sm IH]; intros cur f.
  - reflexivity.
  - simpl. unfold anonymizer.bind, anonymizer.anonymize_text_step at 1.
    unfold anonymizer.bind.
    destruct (anonymizer._generate_replacement (detector.entity_type m) f)
      as [v f1].
    unfold anonymizer.ret at 1. rewrite IH.
    destruct (records sm f1) as [rs f2]. reflexivity.
Qed.

Lemma records_fields (sm : list detector.PIIMatch) (f : F) :
  map match_of_record (fst (records sm f)) = map match_fields sm.
Proof.
  revert f; induction sm as [|m sm IH]; intros f; simpl; auto.
  unfold anonymizer.bind.
  destruct (anonymizer._generate_replacement (detector.entity_type m) f)
    as [v f1].
  specialize (IH f1). destruct (records sm f1) as [rs f2].
  simpl in *. now rewrite IH.
Qed.

Lemma records_spans (sm : list detector.PIIMatch) (f : F) :
  map span_of_record (fst (records sm f)) = map span_of_match sm.
Proof.
  pose proof (records_fields sm f) as E.
  apply (f_equal (map (fun x : str * str * Z * Z * Q =>
                         let '(_, _, s, e, _) := x in (s, e)))) in E.
  rewrite !map_map in E. exact E.
Qed.

(** What [anonymize] returns when the count says that there is PII. *)
Lemma anonymize_with_pii (dr : detector.DetectionResult) (f : F) :
  detector.has_pii dr = true ->
  let recs :=
    records (sorted_reverse detector.start (detector.matches dr)) f in
  anonymizer.anonymize dr f
  = ({| anonymizer.original_text := detector.dr_text dr;
        anonymizer.anonymized_text :=
          fold_left apply_record (fst recs) (detector.dr_text dr);
        anonymizer.replacements := rev (fst recs);
        anonymizer.total_replacements := len (rev (fst recs)) |},
     snd recs).
Proof.
  intros Hpii recs. unfold anonymizer.anonymize. rewrite Hpii. simpl.
  unfold anonymizer.bind. rewrite anonymize_loop. reflexivity.
Qed.

End Loops.

(** ** The ledger *)

Lemma StronglySorted_snoc {A} (R : A -> A -> Prop) (l : list A) (x : A) :
  StronglySorted R l -> Forall (fun y => R y x) l ->
  StronglySorted R (l ++ [x]).
Proof.
  induction 1 as [|y l Hl IH Hy]; intros Hx; simpl.
  - repeat constructor.
  - inversion Hx as [| ? ? Hyx Hlx]; subst.
    constructor; auto.
    apply Forall_app; split; auto.
Qed.

Lemma StronglySorted_rev {A} (R : A -> A -> Prop) (l : list A) :
  StronglySorted R l -> StronglySorted (fun a b => R b a) (rev l).
Proof.
  induction 1 as [|y l Hl IH Hy]; simpl; [constructor |].
  apply StronglySorted_snoc; auto.
  now apply Forall_rev.
Qed.

Lemma StronglySorted_map_iff {A B} (f : A -> B) (R : B -> B -> Prop)
    (l : list A) :
  StronglySorted (fun a b => R (f a) (f b)) l <-> StronglySorted R (map f l).
Proof.
  induction l as [|x l IH]; simpl.
  - split; constructor.
  - split; intros Hs; inversion Hs as [| ? ? Hl Hx]; subst;
      constructor; try (apply IH; assumption).
    + rewrite Forall_map. exact Hx.
    + rewrite Forall_map in Hx. exact Hx.
Qed.

Lemma has_pii_of_count (dr : detector.DetectionResult) :
  detector.total_pii_count dr = len (detector.matches dr) ->
  detector.has_pii dr = true \/ detector.matches dr = [].
Proof.
  unfold detector.has_pii, len. intros ->.
  destruct (detector.matches dr); [now right | left].
  simpl length. apply Z.ltb_lt. lia.
Qed.

Lemma anonymize_without_pii {F : Type} `{anonymizer.Faker F}
    (dr : detector.DetectionResult) (f : F) :
  detector.has_pii dr = false ->
  anonymizer.anonymize dr f
  = ({| anonymizer.original_text := detector.dr_text dr;
        anonymizer.anonymized_text := detector.dr_text dr;
        anonymizer.replacements := [];
        anonymizer.total_replacements := 0 |}, f).
Proof. intros Hno. unfold anonymizer.anonymize. now rewrite Hno. Qed.

Lemma records_descending {F : Type} `{anonymizer.Faker F}
    (ms : list detector.PIIMatch) (f : F) :
  StronglySorted
    (fun a b => anonymizer.position_start b <= anonymizer.position_start a)
    (fst (records (sorted_reverse detector.start ms) f)).
Proof.
  apply (StronglySorted_map_iff span_of_record
           (fun a b => fst b <= fst a)).
  rewrite records_spans.
  apply (StronglySorted_map_iff span_of_match (fun a b => fst b <= fst a)).
  apply (sorted_reverse_descending detector.start).
Qed.

(** C4. For a detection result whose count is the number of its matches,
    as [detect] builds it, [anonymize] returns a ledger with exactly one
    record for each match, in ascending order of the original start,
    although the records were made in descending order of start (the
    reverse of the ledger); [total_replacements] is the length of the
    ledger. This holds whether or not the matches overlap. *)
Theorem ledger_in_document_order {F : Type} `{anonymizer.Faker F}
    (dr : detector.DetectionResult) (f : F) :
  detector.total_pii_count dr = len (detector.matches dr) ->
  let r := fst (anonymizer.anonymize dr f) in
  Permutation (map match_of_record (anonymizer.replacements r))
    (map match_fields (detector.matches dr))
  /\ length (anonymizer.replacements r) = length (detector.matches dr)
  /\ ledger_ascending (anonymizer.replacements r)
  /\ StronglySorted
       (fun a b => anonymizer.position_start b <= anonymizer.position_start a)
       (rev (anonymizer.replacements r))
  /\ anonymizer.total_replacements r = len (anonymizer.replacements r).
Proof.
  intros Hcount r.
  assert (Hperm : Permutation (map match_of_record (anonymizer.replacements r))
                    (map match_fields (detector.matches dr))
                  /\ ledger_ascending (anonymizer.replacements r)
                  /\ StronglySorted
                       (fun a b => anonymizer.position_start b
                                   <= anonymizer.position_start a)
                       (rev (anonymizer.replacements r))
                  /\ anonymizer.total_replacements r
                     = len (anonymizer.replacements r)).
  { subst r. destruct (detector.has_pii dr) eqn:Hpii.
    - rewrite (anonymize_with_pii dr f Hpii). simpl.
      split; [| split; [| split]]; try reflexivity.
      + rewrite map_rev, records_fields, <- Permutation_rev.
        apply Permutation_map, sorted_reverse_perm.
      + apply (StronglySorted_rev
                 (fun a b => anonymizer.position_start b
                             <= anonymizer.position_start a)).
        apply records_descending.
      + rewrite rev_involutive. apply records_descending.
    - destruct (has_pii_of_count dr Hcount) as [Hp | Hnil]; [congruence |].
      rewrite (anonymize_without_pii dr f Hpii). simpl. rewrite Hnil.
      repeat split; constructor. }
  destruct Hperm as (Hp & Hasc & Hdesc & Htot).
  repeat split; auto.
  apply Permutation_length in Hp. now rewrite !length_map in Hp.
Qed.

Lemma ledger_in_document_order_witness :
  let r := fst (anonymizer.anonymize sample_detection_result 0%nat) in
  detector.total_pii_count sample_detection_result
  = len (detector.matches sample_detection_result)
  /\ length (anonymizer.replacements r) = 3%nat
  /\ ledger_ascending (anonymizer.replacements r)
  /\ map anonymizer.position_start (anonymizer.replacements r) = [0; 18; 44].
Proof.
  split; [reflexivity |].
  destruct (ledger_in_document_order sample_detection_result 0%nat eq_refl)
    as (_ & Hlen & Hasc & _).
  split; [exact Hlen |]. split; [exact Hasc |]. reflexivity.
Defined.

(** ** Spans that are not validated *)

Lemma apply_record_beyond_end (cur : str) (rec : anonymizer.ReplacementInfo) :
  len cur <= anonymizer.position_end rec ->
  apply_record cur rec
  = slice_to cur (anonymizer.position_start rec)
    ++ anonymizer.replacement_value rec.
Proof.
  intros Hend. unfold apply_record.
  pose proof (len_nonneg cur) as Hn.
  rewrite slice_from_nonneg by lia.
  rewrite skipn_all2 by (unfold len in *; lia).
  now rewrite app_nil_r.
Qed.

(** C3, as the code has it. [anonymize] validates no span and never
    fails: for every detection result it returns a result whose
    [original_text] is the text that it was given. When the count says
    that there is PII, the ledger has one record for each match whatever
    the spans are, and the anonymized text is the outcome of the splices
    of the records, carried out from the last record of the ledger to the
    first, which is in descending order of start; otherwise the text is
    returned as it is. A splice whose end lies beyond the text it is
    applied to keeps nothing after the replacement. *)
Theorem anonymize_validates_nothing {F : Type} `{anonymizer.Faker F}
    (dr : detector.DetectionResult) (f : F) :
  let r := fst (anonymizer.anonymize dr f) in
  anonymizer.original_text r = detector.dr_text dr
  /\ anonymizer.total_replacements r = len (anonymizer.replacements r)
  /\ (detector.has_pii dr = true ->
      length (anonymizer.replacements r) = length (detector.matches dr)
      /\ StronglySorted
           (fun a b => anonymizer.position_start b
                       <= anonymizer.position_start a)
           (rev (anonymizer.replacements r))
      /\ anonymizer.anonymized_text r
         = fold_left apply_record (rev (anonymizer.replacements r))
             (detector.dr_text dr))
  /\ (detector.has_pii dr = false ->
      anonymizer.replacements r = []
      /\ anonymizer.anonymized_text r = detector.dr_text dr)
  /\ (forall cur rec,
      len cur <= anonymizer.position_end rec ->
      apply_record cur rec
      = slice_to cur (anonymizer.position_start rec)
        ++ anonymizer.replacement_value rec).
Proof.
  intros r. subst r. destruct (detector.has_pii dr) eqn:Hpii.
  - rewrite (anonymize_with_pii dr f Hpii). simpl.
    split; [reflexivity |]. split; [reflexivity |].
    split; [| split; [discriminate | apply apply_record_beyond_end]].
    intros _. rewrite rev_involutive.
    split; [| split; [apply records_descending | reflexivity]].
    rewrite length_rev, <- (length_map match_of_record), records_fields.
    rewrite length_map.
    apply Permutation_length, sorted_reverse_perm.
  - rewrite (anonymize_without_pii dr f Hpii). simpl.
    split; [reflexivity |]. split; [reflexivity |].
    split; [discriminate |]. split; [auto | apply apply_record_beyond_end].
Qed.

Lemma anonymize_validates_nothing_witness :
  let r := fst (anonymizer.anonymize out_of_range_result 0%nat) in
  detector.has_pii out_of_range_result = true
  /\ length (anonymizer.replacements r) = 1%nat
  /\ anonymizer.anonymized_text r
     = fold_left apply_record (rev (anonymizer.replacements r)) (lit "abc")
  /\ Forall (fun rec =>
       len (lit "abc") <= anonymizer.position_end rec
       /\ apply_record (lit "abc") rec
          = slice_to (lit "abc") (anonymizer.position_start rec)
            ++ anonymizer.replacement_value rec)
       (anonymizer.replacements r).
Proof.
  destruct (anonymize_validates_nothing out_of_range_result 0%nat)
    as (_ & _ & Hpii & _ & Hclamp).
  split; [reflexivity |].
  destruct (Hpii eq_refl) as (Hlen & _ & Htext).
  split; [exact Hlen |]. split; [exact Htext |].
  constructor; [| constructor].
  split; [vm_compute; discriminate |].
  apply Hclamp. vm_compute. discriminate.
Defined.

(** C3 fails as stated. The detection result of the test suite has a
    match that ends at 60 in a text of 59 characters, and [anonymize]
    returns a rewritten text and a ledger of three records for it. For a
    match of an unregistered type at [1, 10) in a text of three
    characters it returns the first character and the placeholder, and
    for two matches whose spans intersect it returns a rewritten text
    too. It raises nothing. *)
Lemma anonymize_accepts_invalid_spans :
  (len (detector.dr_text sample_detection_result) = 59
   /\ Exists (fun m => len (detector.dr_text sample_detection_result)
                       < detector.end_ m)
        (detector.matches sample_detection_result)
   /\ exists r f',
       anonymizer.anonymize sample_detection_result 0%nat = (r, f')
       /\ anonymizer.anonymized_text r
          = lit "Jane Smith's SSN is 078-05-1120 and email is jjane@example.org"
       /\ anonymizer.total_replacements r = 3)
  /\ (Exists (fun m => len (detector.dr_text out_of_range_result)
                       < detector.end_ m)
        (detector.matches out_of_range_result)
      /\ exists r f',
          anonymizer.anonymize out_of_range_result 0%nat = (r, f')
          /\ anonymizer.anonymized_text r = lit "a[REDACTED_X]"
          /\ anonymizer.total_replacements r = 1)
  /\ (~ non_overlapping (detector.matches overlapping_result)
      /\ exists r f',
          anonymizer.anonymize overlapping_result 0%nat = (r, f')
          /\ anonymizer.anonymized_text r = lit "[REDACTED_X]EDACTED_Y]"
          /\ anonymizer.total_replacements r = 2).
Proof.
  split; [split; [| split] | split; split].
  - reflexivity.
  - do 2 right. left. vm_compute. reflexivity.
  - do 2 eexists. split; [vm_compute; reflexivity |]. split; reflexivity.
  - left. vm_compute. reflexivity.
  - do 2 eexists. split; [vm_compute; reflexivity |]. split; reflexivity.
  - intros Hno. apply ForallOrdPairs_cons_inv in Hno as [Hfirst _].
    inversion Hfirst as [| ? ? Hd _]; subst.
    unfold disjoint in Hd; simpl in Hd. lia.
  - do 2 eexists. split; [vm_compute; reflexivity |]. split; reflexivity.
Qed.

(** ** The rewrite: carrying out an ascending ledger *)

Lemma chain_le (spans : list (Z * Z)) (pos n : Z) :
  chain pos spans n -> pos <= n.
Proof.
  revert pos; induction spans as [|[s e] spans IH]; simpl; intros pos Hc.
  - exact Hc.
  - destruct Hc as (Hs & He & Hc). apply IH in Hc. lia.
Qed.

Lemma chain_spans (spans : list (Z * Z)) (pos n : Z) :
  chain pos spans n ->
  Forall (fun se => pos <= fst se /\ fst se < snd se /\ snd se <= n) spans.
Proof.
  revert pos; induction spans as [|[s e] spans IH]; simpl; intros pos Hc.
  - constructor.
  - destruct Hc as (Hs & He & Hc). constructor.
    + simpl. apply chain_le in Hc. lia.
    + eapply Forall_impl; [| apply (IH e Hc)].
      simpl. intros se (H1 & H2 & H3). lia.
Qed.

Lemma chain_of_sorted (n : Z) (spans : list (Z * Z)) :
  Forall (fun se => 0 <= fst se /\ fst se < snd se /\ snd se <= n) spans ->
  ForallOrdPairs (fun a b => snd a <= fst b \/ snd b <= fst a) spans ->
  StronglySorted (fun a b => fst a <= fst b) spans ->
  forall pos, pos <= n -> Forall (fun se => pos <= fst se) spans ->
  chain pos spans n.
Proof.
  induction spans as [|[s e] spans IH]; simpl; intros Hok Hdis Hsort pos Hn Hpos.
  - exact Hn.
  - inversion Hok as [| ? ? Hse Hok']; subst.
    apply ForallOrdPairs_cons_inv in Hdis as [Hd Hdis'].
    inversion Hsort as [| ? ? Hsort' Hle]; subst.
    inversion Hpos as [| ? ? Hps _]; subst. simpl in *.
    split; [lia |]. split; [lia |].
    apply IH; auto; try lia.
    rewrite Forall_forall in *. intros b Hb.
    specialize (Hd b Hb). specialize (Hle b Hb). specialize (Hok' b Hb).
    simpl in *. lia.
Qed.

Lemma slice_length (T : str) (i j : Z) :
  0 <= i -> i <= j -> j <= len T -> length (slice T i j) = Z.to_nat (j - i).
Proof.
  intros Hi Hij Hj. rewrite slice_nonneg by assumption.
  rewrite firstn_length_le; auto.
  rewrite length_skipn. unfold len in Hj. lia.
Qed.

Lemma skipn_app_ge {A} (a b : list A) (k : nat) :
  (length a <= k)%nat -> skipn k (a ++ b) = skipn (k - length a) b.
Proof.
  intros Hk. rewrite skipn_app, (@skipn_all2 _ k a Hk).
  reflexivity.
Qed.

Section Assemble.
Variable T : str.

Lemma rewrite_is_assemble (L : list anonymizer.ReplacementInfo) :
  forall pos, 0 <= pos ->
  chain pos (map span_of_record L) (len T) ->
  fold_right (fun r acc => apply_record acc r) T L
  = slice_to T pos ++ assemble T pos L.
Proof.
  induction L as [|r L IH]; simpl; intros pos Hpos Hc.
  - rewrite slice_to_nonneg, slice_from_nonneg by assumption.
    now rewrite firstn_skipn.
  - destruct Hc as (Hs & He & Hc).
    pose proof (chain_le _ _ _ Hc) as Hen.
    rewrite (IH (anonymizer.position_end r)) by (assumption || lia).
    unfold apply_record.
    set (s := anonymizer.position_start r) in *.
    set (e := anonymizer.position_end r) in *.
    rewrite !slice_to_nonneg, slice_from_nonneg, slice_nonneg by lia.
    assert (Hlen : length (firstn (Z.to_nat e) T) = Z.to_nat e).
    { apply firstn_length_le. unfold len in Hen. lia. }
    rewrite firstn_app, firstn_firstn, Nat.min_l by lia.
    replace (Z.to_nat s - length (firstn (Z.to_nat e) T))%nat with 0%nat
      by lia.
    rewrite firstn_O, app_nil_r.
    rewrite skipn_app_ge by lia.
    rewrite Hlen, Nat.sub_diag, skipn_O.
    replace (Z.to_nat (s - pos)) with (Z.to_nat s - Z.to_nat pos)%nat by lia.
    rewrite <- (firstn_then_slice T (Z.to_nat pos) (Z.to_nat s)) at 1 by lia.
    now rewrite <- app_assoc.
Qed.

Lemma rewrite_is_assemble_at_zero (L : list anonymizer.ReplacementInfo) :
  chain 0 (map span_of_record L) (len T) ->
  fold_right (fun r acc => apply_record acc r) T L = assemble T 0 L.
Proof.
  intros Hc. rewrite (rewrite_is_assemble L 0) by (assumption || lia).
  now rewrite slice_to_nonneg by lia.
Qed.

Lemma shift_before_none (L : list anonymizer.ReplacementInfo) (p : Z) :
  Forall (fun r => p <= anonymizer.position_start r) L ->
  shift_before L p = 0.
Proof.
  induction 1 as [|r L Hr _ IH]; simpl; auto.
  destruct (anonymizer.position_start r <? p) eqn:E; lia.
Qed.

Lemma chain_record_starts (L : list anonymizer.ReplacementInfo) (pos : Z) :
  chain pos (map span_of_record L) (len T) ->
  Forall (fun r => pos <= anonymizer.position_start r
                   /\ anonymizer.position_start r < anonymizer.position_end r
                   /\ anonymizer.position_end r <= len T) L.
Proof.
  intros Hc. apply chain_spans in Hc. rewrite Forall_map in Hc. exact Hc.
Qed.

Lemma assemble_replacement (L : list anonymizer.ReplacementInfo) :
  forall pos, 0 <= pos ->
  chain pos (map span_of_record L) (len T) ->
  forall rec, In rec L ->
  let q := anonymizer.position_start rec - pos
           + shift_before L (anonymizer.position_start rec) in
  0 <= q
  /\ firstn (length (anonymizer.replacement_value rec))
       (skipn (Z.to_nat q) (assemble T pos L))
     = anonymizer.replacement_value rec.
Proof.
  induction L as [|r L IH]; simpl; intros pos Hpos Hc rec Hin;
    [contradiction |].
  destruct Hc as (Hs & He & Hc).
  pose proof (chain_le _ _ _ Hc) as Hen.
  pose proof (chain_record_starts _ _ Hc) as Hrest.
  assert (Hlen : length (slice T pos (anonymizer.position_start r))
                 = Z.to_nat (anonymizer.position_start r - pos))
    by (apply slice_length; lia).
  destruct Hin as [<- | Hin].
  - rewrite Z.ltb_irrefl, shift_before_none.
    2:{ eapply Forall_impl; [| exact Hrest]. simpl. intros; lia. }
    split; [lia |].
    rewrite skipn_app_ge by lia.
    replace (Z.to_nat (anonymizer.position_start r - pos + (0 + 0))
             - length (slice T pos (anonymizer.position_start r)))%nat
      with 0%nat by lia.
    rewrite skipn_O, firstn_app, firstn_all, Nat.sub_diag, firstn_O.
    apply app_nil_r.
  - assert (Hpe : 0 <= anonymizer.position_end r) by lia.
    destruct (IH (anonymizer.position_end r) Hpe Hc rec Hin) as [Hq Hv].
    rewrite Forall_forall in Hrest. specialize (Hrest rec Hin).
    replace (anonymizer.position_start r
             <? anonymizer.position_start rec) with true
      by (symmetry; apply Z.ltb_lt; lia).
    unfold growth, len.
    set (q' := anonymizer.position_start rec - anonymizer.position_end r
               + shift_before L (anonymizer.position_start rec)) in *.
    split; [lia |].
    rewrite skipn_app_ge by lia.
    rewrite skipn_app_ge by lia.
    replace (_ - _ - _)%nat with (Z.to_nat q') by lia.
    exact Hv.
Qed.

Lemma assemble_keeps (L : list anonymizer.ReplacementInfo) :
  forall pos p, 0 <= pos ->
  chain pos (map span_of_record L) (len T) ->
  pos <= p < len T ->
  Forall (fun r => p < anonymizer.position_start r
                   \/ anonymizer.position_end r <= p) L ->
  0 <= p - pos + shift_before L p
  /\ nth_error (assemble T pos L) (Z.to_nat (p - pos + shift_before L p))
     = nth_error T (Z.to_nat p).
Proof.
  induction L as [|r L IH]; simpl; intros pos p Hpos Hc Hp Hout.
  - split; [lia |].
    rewrite slice_from_nonneg, nth_error_skipn by assumption.
    f_equal. lia.
  - destruct Hc as (Hs & He & Hc).
    pose proof (chain_le _ _ _ Hc) as Hen.
    pose proof (chain_record_starts _ _ Hc) as Hrest.
    inversion Hout as [| ? ? Hr Hout']; subst.
    assert (Hlen : length (slice T pos (anonymizer.position_start r))
                   = Z.to_nat (anonymizer.position_start r - pos))
      by (apply slice_length; lia).
    destruct Hr as [Hbefore | Hafter].
    + replace (anonymizer.position_start r <? p) with false
        by (symmetry; apply Z.ltb_ge; lia).
      rewrite shift_before_none.
      2:{ eapply Forall_impl; [| exact Hrest]. simpl. intros; lia. }
      split; [lia |].
      rewrite nth_error_app1 by lia.
      rewrite slice_nonneg by lia.
      rewrite nth_error_firstn.
      replace (Z.to_nat (p - pos + (0 + 0))
               <? Z.to_nat (anonymizer.position_start r - pos))%nat
        with true by (symmetry; apply Nat.ltb_lt; lia).
      rewrite nth_error_skipn. f_equal. lia.
    + assert (Hpe : 0 <= anonymizer.position_end r) by lia.
      assert (Hpp : anonymizer.position_end r <= p < len T) by lia.
      destruct (IH (anonymizer.position_end r) p Hpe Hc Hpp Hout')
        as [Hq Hv].
      replace (anonymizer.position_start r <? p) with true
        by (symmetry; apply Z.ltb_lt; lia).
      unfold growth, len.
      set (q' := p - anonymizer.position_end r + shift_before L p) in *.
      split; [lia |].
      rewrite nth_error_app2 by lia.
      rewrite nth_error_app2 by lia.
      replace (_ - _ - _)%nat with (Z.to_nat q') by lia.
      exact Hv.
Qed.

End Assemble.

Lemma getitem_nth {A} (s : list A) (j : Z) (c : A) :
  0 <= j -> nth_error s (Z.to_nat j) = Some c -> getitem s j = Some c.
Proof.
  intros Hj Hnth. unfold getitem.
  assert (Hlt : (Z.to_nat j < length s)%nat)
    by (apply nth_error_Some; congruence).
  destruct (j <? 0) eqn:E; [lia |].
  replace (0 <=? j) with true by (symmetry; apply Z.leb_le; lia).
  replace (j <? len s) with true
    by (symmetry; apply Z.ltb_lt; unfold len; lia).
  exact Hnth.
Qed.

Lemma spans_of_matches_ok (T : str) (ms : list detector.PIIMatch) :
  Forall (span_in_bounds T) ms ->
  Forall (fun se => 0 <= fst se /\ fst se < snd se /\ snd se <= len T)
    (map span_of_match ms).
Proof. intros Hok. rewrite Forall_map. exact Hok. Qed.

Lemma spans_of_matches_disjoint (ms : list detector.PIIMatch) :
  non_overlapping ms ->
  ForallOrdPairs (fun a b => snd a <= fst b \/ snd b <= fst a)
    (map span_of_match ms).
Proof. intros Hno. apply ForallOrdPairs_map. exact Hno. Qed.

Section Rewrite.
Context {F : Type} `{anonymizer.Faker F}.

Lemma ledger_spans (ms : list detector.PIIMatch) (f : F) :
  Permutation
    (map span_of_record
       (rev (fst (records (sorted_reverse detector.start ms) f))))
    (map span_of_match ms).
Proof.
  rewrite map_rev, records_spans, <- Permutation_rev.
  apply Permutation_map, sorted_reverse_perm.
Qed.

Lemma ledger_chain (T : str) (ms : list detector.PIIMatch) (f : F) :
  Forall (span_in_bounds T) ms ->
  non_overlapping ms ->
  chain 0
    (map span_of_record
       (rev (fst (records (sorted_reverse detector.start ms) f))))
    (len T).
Proof.
  intros Hok Hno.
  pose proof (ledger_spans ms f) as Hperm.
  assert (Hspans : Forall (fun se => 0 <= fst se /\ fst se < snd se
                                     /\ snd se <= len T)
                     (map span_of_record
                        (rev (fst (records
                                     (sorted_reverse detector.start ms) f))))).
  { eapply Permutation_Forall; [symmetry; exact Hperm |].
    now apply spans_of_matches_ok. }
  apply chain_of_sorted; auto.
  - eapply ForallOrdPairs_perm; [| symmetry; exact Hperm |].
    + simpl; tauto.
    + now apply spans_of_matches_disjoint.
  - rewrite map_rev.
    apply (StronglySorted_rev (fun a b : Z * Z => fst b <= fst a)).
    apply (StronglySorted_map_iff span_of_record
             (fun a b => fst b <= fst a)).
    apply records_descending.
  - apply len_nonneg.
  - eapply Forall_impl; [| exact Hspans]. simpl; tauto.
Qed.

Lemma rewrite_of_ledger (T : str) (ms : list detector.PIIMatch) (f : F) :
  Forall (span_in_bounds T) ms ->
  non_overlapping ms ->
  fold_left apply_record
    (fst (records (sorted_reverse detector.start ms) f)) T
  = assemble T 0
      (rev (fst (records (sorted_reverse detector.start ms) f))).
Proof.
  intros Hok Hno.
  rewrite <- (rewrite_is_assemble_at_zero T).
  - now rewrite fold_left_rev_right.
  - now apply ledger_chain.
Qed.

End Rewrite.

(** C1. For every text [T] and every list of matches whose spans are
    non-empty intervals within [T] and pairwise non-overlapping, the
    rewrite of [anonymize], which is also that of [anonymize_text], gives
    a text in which each replacement stands at the start of its match
    shifted by the cumulative length difference of the replacements made
    at strictly earlier starts, and in which every character of [T] that
    lies in no span is found unchanged at its offset, shifted likewise.
    The ledger has the records of the matches, and it alone gives the
    offsets. *)
Theorem rewrite_places_replacements {F : Type} `{anonymizer.Faker F}
    (T : str) (ms : list detector.PIIMatch) (found : list str) (f : F) :
  Forall (span_in_bounds T) ms ->
  non_overlapping ms ->
  let r :=
    fst (anonymizer.anonymize
           {| detector.dr_text := T; detector.matches := ms;
              detector.total_pii_count := len ms;
              detector.pii_types_found := found |} f) in
  let ledger := anonymizer.replacements r in
  let T' := anonymizer.anonymized_text r in
  fst (anonymizer.anonymize_text T ms f) = T'
  /\ Permutation (map match_of_record ledger) (map match_fields ms)
  /\ (forall rec, In rec ledger ->
      let q := anonymizer.position_start rec
               + shift_before ledger (anonymizer.position_start rec) in
      0 <= q
      /\ slice T' q (q + len (anonymizer.replacement_value rec))
         = anonymizer.replacement_value rec)
  /\ (forall p, 0 <= p < len T -> outside_spans ms p ->
      0 <= p + shift_before ledger p
      /\ getitem T' (p + shift_before ledger p) = getitem T p).
Proof.
  intros Hok Hno.
  assert (Htext : ms <> [] ->
                  anonymizer.anonymize_text T ms f
                  = anonymizer.for_each anonymizer.anonymize_text_step
                      (sorted_reverse detector.start ms) T f)
    by (destruct ms; [congruence | reflexivity]).
  destruct (has_pii_of_count
              {| detector.dr_text := T; detector.matches := ms;
                 detector.total_pii_count := len ms;
                 detector.pii_types_found := found |} eq_refl)
    as [Hpii | Hnil].
  2:{ simpl in Hnil. subst ms. intros r ledger T'. subst r ledger T'.
      rewrite anonymize_without_pii by reflexivity. simpl.
      split; [reflexivity |]. split; [constructor |].
      split; [contradiction |].
      intros p Hp _. rewrite Z.add_0_r. split; [lia | reflexivity]. }
  - assert (Hms : ms <> []) by (intros ->; discriminate Hpii).
    specialize (Htext Hms).
    intros r ledger T'.
    subst r ledger T'. rewrite (anonymize_with_pii _ f Hpii).
    cbn [fst anonymizer.replacements anonymizer.anonymized_text
         detector.matches detector.dr_text].
    set (L := rev (fst (records (sorted_reverse detector.start ms) f))).
    pose proof (ledger_chain T ms f Hok Hno) as Hchain. fold L in Hchain.
    rewrite (rewrite_of_ledger T ms f Hok Hno). fold L.
    split; [| split; [| split]].
    + rewrite Htext, anonymize_text_loop. simpl fst.
      apply (rewrite_of_ledger T ms f Hok Hno).
    + unfold L. rewrite map_rev, records_fields, <- Permutation_rev.
      apply Permutation_map, sorted_reverse_perm.
    + intros rec Hin.
      destruct (assemble_replacement T L 0 (Z.le_refl 0) Hchain rec Hin)
        as [Hq Hv].
      rewrite Z.sub_0_r in Hq, Hv.
      set (q := anonymizer.position_start rec
                + shift_before L (anonymizer.position_start rec)) in *.
      split; [exact Hq |].
      pose proof (len_nonneg (anonymizer.replacement_value rec)) as Hlen.
      rewrite slice_nonneg by lia.
      replace (Z.to_nat (q + len (anonymizer.replacement_value rec) - q))
        with (length (anonymizer.replacement_value rec))
        by (unfold len; lia).
      exact Hv.
    + intros p Hp Hout.
      assert (HoutL : Forall (fun r => p < anonymizer.position_start r
                                       \/ anonymizer.position_end r <= p) L).
      { apply (Forall_map span_of_record
                 (fun se => p < fst se \/ snd se <= p)).
        eapply Permutation_Forall; [symmetry; apply ledger_spans |].
        rewrite Forall_map. exact Hout. }
      destruct (assemble_keeps T L 0 p (Z.le_refl 0) Hchain Hp HoutL)
        as [Hq Hv].
      rewrite Z.sub_0_r in Hq, Hv. split; [exact Hq |].
      destruct (nth_error T (Z.to_nat p)) as [c |] eqn:Ec.
      * rewrite (getitem_nth T p c) by (assumption || lia).
        now apply getitem_nth.
      * apply nth_error_None in Ec. unfold len in Hp. lia.
Qed.

Lemma rewrite_places_replacements_witness :
  Forall (span_in_bounds contact_text) contact_matches
  /\ non_overlapping contact_matches
  /\ let r :=
       fst (anonymizer.anonymize
              {| detector.dr_text := contact_text;
                 detector.matches := contact_matches;
                 detector.total_pii_count := len contact_matches;
                 detector.pii_types_found := [] |} 0%nat) in
     let ledger := anonymizer.replacements r in
     let T' := anonymizer.anonymized_text r in
     T' = lit "Contact Jane Smith at jane@example.org"
     /\ fst (anonymizer.anonymize_text contact_text contact_matches 0%nat)
        = T'
     /\ (forall rec, In rec ledger ->
         let q := anonymizer.position_start rec
                  + shift_before ledger (anonymizer.position_start rec) in
         0 <= q
         /\ slice T' q (q + len (anonymizer.replacement_value rec))
            = anonymizer.replacement_value rec)
     /\ (forall p, 0 <= p < len contact_text ->
         outside_spans contact_matches p ->
         0 <= p + shift_before ledger p
         /\ getitem T' (p + shift_before ledger p) = getitem contact_text p).
Proof.
  assert (Hok : Forall (span_in_bounds contact_text) contact_matches).
  { unfold contact_matches.
    repeat (apply Forall_cons;
            [cbv; repeat split; try reflexivity; intro; discriminate |]).
    apply Forall_nil. }
  assert (Hno : non_overlapping contact_matches).
  { unfold non_overlapping, disjoint. simpl.
    repeat constructor; simpl; lia. }
  split; [exact Hok |]. split; [exact Hno |].
  destruct (rewrite_places_replacements contact_text contact_matches []
              0%nat Hok Hno) as (Htext & _ & Hrep & Hkeep).
  split; [vm_compute; reflexivity |].
  split; [exact Htext |]. split; [exact Hrep | exact Hkeep].
Defined.

(** ** The replacement mapping *)

Lemma dict_contains_keys {V} (d : dict V) (k : str) :
  dict_contains d k = true <-> In k (map fst d).
Proof.
  unfold dict_contains. induction d as [|[k' v'] d IH]; simpl.
  - split; [discriminate | contradiction].
  - destruct (str_eqb k' k) eqn:E.
    + apply str_eqb_eq in E. split; auto.
    + apply str_eqb_neq in E. rewrite IH. split; [auto | intros [|]; tauto].
Qed.

Lemma dict_set_new_key {V} (d : dict V) (k : str) (v : V) :
  dict_contains d k = false -> map fst (dict_set d k v) = map fst d ++ [k].
Proof.
  unfold dict_contains. induction d as [|[k' v'] d IH]; simpl; auto.
  destruct (str_eqb k' k) eqn:E; [discriminate |].
  intros Hno. simpl. now rewrite IH.
Qed.





(** ** Replacing every occurrence *)

Lemma startswith_app (k rest : str) : startswith (k ++ rest) k = true.
Proof.
  induction k as [|c k IH]; [now destruct rest |].
  cbn [app startswith]. now rewrite N.eqb_refl, IH.
Qed.

Lemma startswith_app_long (X rest k : str) :
  (length k <= length X)%nat -> startswith (X ++ rest) k = startswith X k.
Proof.
  revert X; induction k as [|c k IH]; intros X Hlen; simpl.
  - now destruct (X ++ rest), X.
  - destruct X as [|x X]; simpl in Hlen; [lia |].
    cbn [app startswith]. now rewrite IH by lia.
Qed.

Lemma replace_scan_skip (k v a rest : str) :
  replace_scan k v (a ++ rest) (length a) = replace_scan k v rest 0.
Proof.
  induction a as [|c a IH]; simpl; auto.
Qed.

Lemma replace_scan_clear (k v p rest : str) :
  k <> [] -> clear_of k p ->
  replace_scan k v (p ++ k ++ rest) 0 = p ++ v ++ replace_scan k v rest 0.
Proof.
  intros Hk. induction p as [|c p IH]; intros Hclear.
  - destruct k as [|c k]; [congruence |]. simpl app.
    change (replace_scan (c :: k) v (c :: k ++ rest) 0)
      with (if startswith ((c :: k) ++ rest) (c :: k)
            then v ++ replace_scan (c :: k) v (k ++ rest)
                        (length (c :: k) - 1)
            else c :: replace_scan (c :: k) v (k ++ rest) 0).
    rewrite startswith_app.
    replace (length (c :: k) - 1)%nat with (length k) by (simpl; lia).
    now rewrite replace_scan_skip.
  - assert (H0 : startswith ((c :: p) ++ k ++ rest) k = false).
    { rewrite app_assoc, startswith_app_long.
      - apply (Hclear 0%nat). simpl; lia.
      - rewrite length_app. lia. }
    change (replace_scan k v ((c :: p) ++ k ++ rest) 0)
      with (if startswith ((c :: p) ++ k ++ rest) k
            then v ++ replace_scan k v (p ++ k ++ rest) (length k - 1)
            else c :: replace_scan k v (p ++ k ++ rest) 0).
    rewrite H0, IH; [reflexivity |].
    intros i Hi. apply (Hclear (S i)). simpl; lia.
Qed.

Lemma replace_scan_free (k v s : str) :
  contains s k = false -> replace_scan k v s 0 = s.
Proof.
  induction s as [|c s IH]; simpl; auto.
  intros Hc. apply orb_false_iff in Hc as [Hs Hc].
  simpl in Hs. rewrite Hs. now rewrite IH.
Qed.

Lemma join_cons (sep p : str) (rest : list str) :
  rest <> [] -> join sep (p :: rest) = p ++ sep ++ join sep rest.
Proof. destruct rest; [congruence | reflexivity]. Qed.

Lemma replace_join (k v : str) (ps : list str) (last : str) :
  k <> [] -> Forall (clear_of k) ps -> contains last k = false ->
  replace (join k (ps ++ [last])) k v = join v (ps ++ [last]).
Proof.
  intros Hk Hps Hlast.
  assert (E : replace (join k (ps ++ [last])) k v
              = replace_scan k v (join k (ps ++ [last])) 0)
    by (destruct k; [congruence | reflexivity]).
  rewrite E. clear E.
  induction Hps as [|p ps Hp Hps IH]; simpl app.
  - simpl. now apply replace_scan_free.
  - rewrite !join_cons by (destruct ps; discriminate).
    rewrite replace_scan_clear by assumption.
    now rewrite IH.
Qed.

(** ** The entries of the mapping *)





(** ** Passes over marked occurrences *)
















(** * More of the package *)

(** ** Sets and dicts *)

Lemma set_add_in (s : list str) (x y : str) :
  In x (set_add s y) <-> In x s \/ x = y.
Proof.
  induction s as [|z s IH]; simpl.
  - intuition.
  - destruct (str_eqb z y) eqn:E.
    + apply str_eqb_eq in E. subst z. simpl. intuition.
    + simpl. rewrite IH. intuition.
Qed.

Lemma set_add_nodup (s : list str) (y : str) :
  NoDup s -> NoDup (set_add s y).
Proof.
  induction 1 as [|z s Hz Hs IH]; simpl.
  - repeat constructor. intros [].
  - destruct (str_eqb z y) eqn:E; [now constructor |].
    constructor; auto.
    rewrite set_add_in. apply str_eqb_neq in E. intuition.
Qed.

Lemma fold_set_add (names : list str) :
  forall found, NoDup found ->
  NoDup (fold_left set_add names found)
  /\ forall x, In x (fold_left set_add names found)
               <-> In x found \/ In x names.
Proof.
  induction names as [|y names IH]; intros found Hnd; simpl.
  - intuition.
  - destruct (IH (set_add found y) (set_add_nodup found y Hnd))
      as [Hnd' Hin].
    split; [exact Hnd' |].
    intros x. rewrite Hin, set_add_in. intuition.
Qed.

Lemma dict_set_old_key {V} (d : dict V) (k : str) (v : V) :
  dict_contains d k = true -> map fst (dict_set d k v) = map fst d.
Proof.
  unfold dict_contains. induction d as [|[k' v'] d IH]; simpl;
    [discriminate |].
  destruct (str_eqb k' k) eqn:E; simpl; [reflexivity |].
  intros Hc. now rewrite IH.
Qed.

Lemma dict_set_keys_in {V} (d : dict V) (k : str) (v : V) (x : str) :
  In x (map fst (dict_set d k v)) <-> In x (map fst d) \/ x = k.
Proof.
  destruct (dict_contains d k) eqn:Hc.
  - rewrite dict_set_old_key by assumption.
    apply dict_contains_keys in Hc. intuition. now subst.
  - rewrite dict_set_new_key by assumption.
    rewrite in_app_iff. simpl. intuition.
Qed.

Lemma dict_set_keys_nodup {V} (d : dict V) (k : str) (v : V) :
  NoDup (map fst d) -> NoDup (map fst (dict_set d k v)).
Proof.
  intros Hnd. destruct (dict_contains d k) eqn:Hc.
  - now rewrite dict_set_old_key.
  - rewrite dict_set_new_key by assumption.
    apply NoDup_app; auto.
    + repeat constructor. intros [].
    + intros x Hx [<- | []].
      apply dict_contains_keys in Hx. congruence.
Qed.

Lemma dict_get_default_set_same {V} (d : dict V) k v (default : V) :
  dict_get_default (dict_set d k v) k default = v.
Proof. unfold dict_get_default. now rewrite dict_get_set_same. Qed.

Lemma dict_get_default_set_other {V} (d : dict V) k k' v (default : V) :
  k <> k' ->
  dict_get_default (dict_set d k v) k' default = dict_get_default d k' default.
Proof.
  intros Hne. unfold dict_get_default. now rewrite dict_get_set_other.
Qed.

Lemma dict_values_sum_set (d : dict Z) (k : str) (v : Z) :
  fold_right Z.add 0 (map snd (dict_set d k v))
  = fold_right Z.add 0 (map snd d) + v - dict_get_default d k 0.
Proof.
  unfold dict_get_default. induction d as [|[k' v'] d IH]; simpl.
  - lia.
  - destruct (str_eqb k' k) eqn:E; simpl; [lia |].
    rewrite IH. lia.
Qed.

(** ** What [detect] returns *)

Lemma detect_loop_found (text : str) (results : list detector.RecognizerResult)
    (ms : list detector.PIIMatch) (found : list str) :
  snd (fold_left (detector.detect_step text) results (ms, found))
  = fold_left set_add (map detector.rr_entity_type results) found.
Proof.
  revert ms found; induction results as [|r rs IH]; intros ms found; simpl.
  - reflexivity.
  - now rewrite IH.
Qed.

Lemma detect_not_blank (self : detector.PIIDetector) (text : str) :
  forallb isspace text = false ->
  detector.detect self text
  = match detector.analyzer self with
    | None =>
        Raises (RuntimeError
                  "Analyzer not initialized. Set load_spacy_model=True.")
    | Some engine =>
        let results :=
          detector.analyze engine text (detector.language self)
            (detector.PRESIDIO_ENTITIES ++ detector.CUSTOM_ENTITIES)
            (detector.score_threshold self) in
        Returns
          {| detector.dr_text := text;
             detector.matches :=
               sorted detector.start (map (match_of_result text) results);
             detector.total_pii_count :=
               len (sorted detector.start
                      (map (match_of_result text) results));
             detector.pii_types_found :=
               fold_left set_add (map detector.rr_entity_type results) [] |}
    end.
Proof.
  intros Hnb. unfold detector.detect.
  assert (Hs : strip text <> []).
  { intros E. apply strip_nil_iff in E. congruence. }
  destruct text as [|c text]; [discriminate |].
  destruct (strip (c :: text)) as [|c' s'] eqn:Es; [congruence |].
  cbn [orb]. destruct (detector.analyzer self) as [engine |]; [| reflexivity].
  cbv zeta.
  set (results := detector.analyze _ _ _ _ _).
  pose proof (detect_loop (c :: text) results [] []) as Hloop.
  pose proof (detect_loop_found (c :: text) results [] []) as Hfound.
  destruct (fold_left _ results ([], [])) as [ms found].
  simpl in Hloop, Hfound. now subst ms found.
Qed.

Lemma detect_invariants (self : detector.PIIDetector) (text : str)
    (dr : detector.DetectionResult) :
  detector.detect self text = Returns dr ->
  detector.dr_text dr = text
  /\ detector.total_pii_count dr = len (detector.matches dr)
  /\ (detector.has_pii dr = true <-> detector.matches dr <> [])
  /\ NoDup (detector.pii_types_found dr)
  /\ (forall e, In e (detector.pii_types_found dr)
                <-> exists m, In m (detector.matches dr)
                              /\ detector.entity_type m = e)
  /\ (forall m, In m (detector.matches dr) ->
        detector.text m = slice text (detector.start m) (detector.end_ m)
        /\ detector.pii_type m
           = dict_get pii_types.PII_TYPE_MAP (detector.entity_type m)).
Proof.
  intros Hret.
  assert (Hcount : forall ms : list detector.PIIMatch,
             (0 <? len ms) = true <-> ms <> []).
  { intros ms. unfold len. rewrite Z.ltb_lt.
    destruct ms; simpl; split; intros; (congruence || lia). }
  destruct (forallb isspace text) eqn:Hb.
  - rewrite (detect_of_blank self text Hb) in Hret. injection Hret as <-.
    simpl. repeat split; try (intros; tauto || congruence || discriminate).
    + constructor.
    + intros (m & [] & _).
  - rewrite (detect_not_blank self text Hb) in Hret.
    destruct (detector.analyzer self) as [engine |]; [| discriminate].
    cbv zeta in Hret. injection Hret as <-.
    set (results := detector.analyze _ _ _ _ _).
    cbn [detector.dr_text detector.matches detector.total_pii_count
         detector.pii_types_found].
    destruct (fold_set_add (map detector.rr_entity_type results) []
                (NoDup_nil _)) as [Hnd Hin].
    split; [reflexivity |]. split; [reflexivity |].
    split; [apply Hcount |]. split; [exact Hnd |]. split.
    + intros e. rewrite Hin. split.
      * intros [[] | He]. apply in_map_iff in He as (r & <- & Hr).
        exists (match_of_result text r). split; [| reflexivity].
        apply (Permutation_in _ (Permutation_sym (sorted_perm _ _))).
        now apply in_map.
      * intros (m & Hm & <-). right.
        apply (Permutation_in _ (sorted_perm _ _)) in Hm.
        apply in_map_iff in Hm as (r & <- & Hr).
        change (In (detector.rr_entity_type r)
                  (map detector.rr_entity_type results)).
        now apply in_map.
    + intros m Hm.
      apply (Permutation_in _ (sorted_perm _ _)) in Hm.
      apply in_map_iff in Hm as (r & <- & Hr). split; reflexivity.
Qed.


(** X1. Whatever the analyzer, a result returned by [detect] is
    consistent: it carries the text that was given, its count is the
    number of its matches, [has_pii] says whether there is a match, the
    types found are, without duplicates, the entity types of the matches,
    and every match has as text the slice of the input at its span and
    as [pii_type] what [PII_TYPE_MAP] has under its entity type. *)
Theorem detect_result_consistent (self : detector.PIIDetector) (text : str)
    (dr : detector.DetectionResult) :
  detector.detect self text = Returns dr ->
  detector.dr_text dr = text
  /\ detector.total_pii_count dr = len (detector.matches dr)
  /\ (detector.has_pii dr = true <-> detector.matches dr <> [])
  /\ NoDup (detector.pii_types_found dr)
  /\ (forall e, In e (detector.pii_types_found dr)
                <-> exists m, In m (detector.matches dr)
                              /\ detector.entity_type m = e)
  /\ (forall m, In m (detector.matches dr) ->
        detector.text m = slice text (detector.start m) (detector.end_ m)
        /\ detector.pii_type m
           = dict_get pii_types.PII_TYPE_MAP (detector.entity_type m)).
Proof. apply detect_invariants. Qed.

Lemma detect_result_consistent_witness :
  exists dr,
    detector.detect
      (detector.PIIDetector_init (lit "en") 0.5 true
         (fixed_engine person_ssn_email)) john_doe_text = Returns dr
    /\ detector.total_pii_count dr = 3
    /\ NoDup (detector.pii_types_found dr)
    /\ forall m, In m (detector.matches dr) ->
         detector.text m
         = slice john_doe_text (detector.start m) (detector.end_ m).
Proof.
  eexists. split; [vm_compute; reflexivity |].
  match goal with
  | |- ?c = 3 /\ _ =>
      match c with
      | detector.total_pii_count ?dr =>
          destruct (detect_result_consistent
                      (detector.PIIDetector_init (lit "en") 0.5 true
                         (fixed_engine person_ssn_email))
                      john_doe_text dr)
            as (_ & Hc & _ & Hnd & _ & Hm)
      end
  end.
  - vm_compute. reflexivity.
  - split; [reflexivity |]. split; [exact Hnd |].
    intros m Hin. now apply Hm.
Defined.

(** X2. Without an analyzer, [detect] raises RuntimeError for every text
    that is not blank, and [detect_with_context] and [get_pii_summary]
    raise the same error. *)
Theorem detect_without_analyzer (self : detector.PIIDetector) (text : str)
    (context_window : Z) :
  detector.analyzer self = None ->
  forallb isspace text = false ->
  let error :=
    RuntimeError "Analyzer not initialized. Set load_spacy_model=True." in
  detector.detect self text = Raises error
  /\ detector.detect_with_context self text context_window = Raises error
  /\ detector.get_pii_summary self text = Raises error.
Proof.
  intros Hnone Hnb error.
  assert (Hd : detector.detect self text = Raises error).
  { rewrite (detect_not_blank self text Hnb). now rewrite Hnone. }
  unfold detector.detect_with_context, detector.get_pii_summary.
  rewrite Hd. auto.
Qed.

Lemma detect_without_analyzer_witness :
  let self :=
    detector.PIIDetector_init (lit "en") 0.5 false (fixed_engine []) in
  let error :=
    RuntimeError "Analyzer not initialized. Set load_spacy_model=True." in
  detector.analyzer self = None
  /\ forallb isspace (lit "Some text with John Doe") = false
  /\ detector.detect self (lit "Some text with John Doe") = Raises error
  /\ detector.detect_with_context self (lit "Some text with John Doe") 50
     = Raises error
  /\ detector.get_pii_summary self (lit "Some text with John Doe")
     = Raises error.
Proof.
  split; [reflexivity |]. split; [reflexivity |].
  apply (detect_without_analyzer
           (detector.PIIDetector_init (lit "en") 0.5 false (fixed_engine []))
           (lit "Some text with John Doe") 50); reflexivity.
Defined.

(** ** The context of a match *)

Lemma slice_of_slice {A} (T : list A) (cs ce s e : Z) :
  0 <= cs -> cs <= s -> s <= e -> e <= ce -> ce <= len T ->
  slice (slice T cs ce) (s - cs) (e - cs) = slice T s e.
Proof.
  intros H0 H1 H2 H3 H4.
  rewrite (slice_nonneg T cs ce), (slice_nonneg T s e) by lia.
  rewrite slice_nonneg by lia.
  rewrite skipn_firstn_comm, skipn_skipn, firstn_firstn.
  replace (Z.to_nat (s - cs) + Z.to_nat cs)%nat with (Z.to_nat s) by lia.
  f_equal. lia.
Qed.

Lemma context_loop (text : str) (w : Z) (ms : list detector.PIIMatch)
    (acc : list detector.MatchWithContext) :
  fold_left (detector.context_step text w) ms acc
  = acc ++ flat_map (detector.context_step text w []) ms.
Proof.
  revert acc; induction ms as [|m ms IH]; intros acc; simpl.
  - now rewrite app_nil_r.
  - rewrite IH. unfold detector.context_step at 1. simpl.
    now rewrite <- app_assoc.
Qed.

(** X3. [detect_with_context] returns one entry for each match of
    [detect], in the same order and with its fields. The context of an
    entry is the slice of the text between its context positions, which
    lie within the text. For a window that is not negative and a match
    whose span lies within the text, the context positions enclose the
    span, and the matched text is found in the context at the start of
    the match counted from the start of the context. *)
Theorem context_contains_match (self : detector.PIIDetector) (text : str)
    (context_window : Z) (entries : list detector.MatchWithContext) :
  detector.detect_with_context self text context_window = Returns entries ->
  (exists dr,
      detector.detect self text = Returns dr
      /\ map (fun e => (detector.ctx_entity_type e, detector.matched_text e,
                        detector.ctx_position_start e,
                        detector.ctx_position_end e, detector.ctx_score e))
           entries
         = map match_fields (detector.matches dr))
  /\ Forall (fun e =>
       0 <= detector.context_position_start e
       /\ detector.context_position_end e <= len text
       /\ detector.context e
          = slice text (detector.context_position_start e)
              (detector.context_position_end e)) entries
  /\ (0 <= context_window ->
      Forall (fun e =>
        0 <= detector.ctx_position_start e ->
        detector.ctx_position_start e <= detector.ctx_position_end e ->
        detector.ctx_position_end e <= len text ->
        detector.context_position_start e <= detector.ctx_position_start e
        /\ detector.ctx_position_end e <= detector.context_position_end e
        /\ slice (detector.context e)
             (detector.ctx_position_start e
              - detector.context_position_start e)
             (detector.ctx_position_end e
              - detector.context_position_start e)
           = detector.matched_text e) entries).
Proof.
  unfold detector.detect_with_context.
  destruct (detector.detect self text) as [dr | e] eqn:Hd; [| discriminate].
  intros Hret. injection Hret as <-.
  destruct (detect_invariants self text dr Hd) as (_ & _ & _ & _ & _ & Hms).
  rewrite context_loop. simpl app.
  split; [| split].
  - exists dr. split; [reflexivity |]. clear Hms.
    induction (detector.matches dr) as [|m ms IH]; simpl; [reflexivity |].
    rewrite IH. destruct m; reflexivity.
  - apply Forall_forall. intros e He.
    apply in_flat_map in He as (m & _ & [<- | []]). simpl.
    split; [lia |]. split; [lia | reflexivity].
  - intros Hw. apply Forall_forall. intros e He.
    apply in_flat_map in He as (m & Hm & [<- | []]). simpl.
    intros H0 H1 H2.
    split; [lia |]. split; [lia |].
    destruct (Hms m Hm) as [Htext _].
    replace (match m with
             | {| detector.text := t |} => t
             end) with (detector.text m) by (destruct m; reflexivity).
    rewrite Htext. apply slice_of_slice; lia.
Qed.

Lemma context_contains_match_witness :
  exists entries,
    detector.detect_with_context
      (detector.PIIDetector_init (lit "en") 0.5 true
         (fixed_engine contact_results)) contact_text 3 = Returns entries
    /\ map detector.context entries = [lit "ct John at"; lit "at john@test.com"]
    /\ Forall (fun e =>
         slice (detector.context e)
           (detector.ctx_position_start e - detector.context_position_start e)
           (detector.ctx_position_end e - detector.context_position_start e)
         = detector.matched_text e) entries.
Proof.
  eexists. split; [vm_compute; reflexivity |]. split; [reflexivity |].
  match goal with
  | |- Forall _ ?es =>
      destruct (context_contains_match
                  (detector.PIIDetector_init (lit "en") 0.5 true
                     (fixed_engine contact_results)) contact_text 3 es)
        as (_ & _ & Hin); [vm_compute; reflexivity |]
  end.
  assert (Hw : 0 <= 3) by lia. specialize (Hin Hw).
  inversion Hin as [| e1 l1 H1 Hin']; subst.
  inversion Hin' as [| e2 l2 H2 _]; subst.
  constructor; [| constructor; [| constructor]].
  - apply H1; vm_compute; congruence.
  - apply H2; vm_compute; congruence.
Defined.

(** ** The summary *)

Lemma count_loop (ms : list detector.PIIMatch) :
  forall d : dict Z,
  NoDup (map fst d) ->
  let tc := fold_left detector.count_step ms d in
  NoDup (map fst tc)
  /\ (forall e, In e (map fst tc)
                <-> In e (map fst d)
                    \/ exists m, In m ms /\ detector.entity_type m = e)
  /\ (forall e,
        dict_get_default tc e 0
        = dict_get_default d e 0
          + len (filter (fun m => str_eqb (detector.entity_type m) e) ms))
  /\ fold_right Z.add 0 (map snd tc)
     = fold_right Z.add 0 (map snd d) + len ms.
Proof.
  induction ms as [|m ms IH]; intros d Hnd; simpl.
  - repeat split; auto; try (intros; unfold len; simpl; lia || tauto).
    intros [H | (m & [] & _)]; exact H.
  - set (d1 := detector.count_step d m).
    assert (Hnd1 : NoDup (map fst d1)) by now apply dict_set_keys_nodup.
    destruct (IH d1 Hnd1) as (Hnd' & Hkeys & Hget & Hsum).
    split; [exact Hnd' |]. split; [| split].
    + intros e. rewrite Hkeys. unfold d1, detector.count_step.
      rewrite dict_set_keys_in. split.
      * intros [[H | ->] | (m' & Hm' & He)]; eauto.
      * intros [H | (m' & [<- | Hm'] & He)]; eauto.
    + intros e. rewrite Hget. unfold d1, detector.count_step.
      destruct (str_eqb (detector.entity_type m) e) eqn:E.
      * apply str_eqb_eq in E. subst e.
        rewrite dict_get_default_set_same. unfold len. simpl length. lia.
      * apply str_eqb_neq in E.
        now rewrite dict_get_default_set_other.
    + rewrite Hsum. unfold d1, detector.count_step.
      rewrite dict_values_sum_set. unfold len. simpl length. lia.
Qed.

(** X4. In the summary of [get_pii_summary] the counts by type add up to
    [total_pii_found], which is the number of matches of [detect]; the
    count of a type is the number of matches of that type (no entry
    stands for zero); the types counted are, each once, the types found,
    so that [unique_pii_types] is the number of entries of [type_counts];
    and [has_sensitive_data] says whether the total is positive. *)
Theorem summary_counts_add_up (self : detector.PIIDetector) (text : str)
    (summary : detector.PIISummary) :
  detector.get_pii_summary self text = Returns summary ->
  exists dr,
    detector.detect self text = Returns dr
    /\ detector.total_pii_found summary = len (detector.matches dr)
    /\ fold_right Z.add 0 (map snd (detector.type_counts summary))
       = detector.total_pii_found summary
    /\ (forall e,
          dict_get_default (detector.type_counts summary) e 0
          = len (filter (fun m => str_eqb (detector.entity_type m) e)
                   (detector.matches dr)))
    /\ Permutation (map fst (detector.type_counts summary))
         (detector.summary_pii_types_found summary)
    /\ detector.unique_pii_types summary
       = len (detector.type_counts summary)
    /\ (detector.has_sensitive_data summary = true
        <-> 0 < detector.total_pii_found summary).
Proof.
  unfold detector.get_pii_summary.
  destruct (detector.detect self text) as [dr | e] eqn:Hd; [| discriminate].
  intros Hret. injection Hret as <-. simpl.
  destruct (detect_invariants self text dr Hd)
    as (_ & Hcount & _ & Hnd & Hfound & _).
  destruct (count_loop (detector.matches dr) [] (NoDup_nil _))
    as (Hndk & Hkeys & Hget & Hsum).
  assert (Hperm : Permutation
                    (map fst (fold_left detector.count_step
                                (detector.matches dr) []))
                    (detector.pii_types_found dr)).
  { apply NoDup_Permutation; auto.
    intros e. rewrite Hkeys, Hfound. simpl. intuition. }
  exists dr. split; [reflexivity |]. split; [exact Hcount |].
  split; [simpl in Hsum; lia |]. split; [exact Hget |].
  split; [exact Hperm |]. split.
  - apply Permutation_length in Hperm. rewrite length_map in Hperm.
    unfold len. now rewrite Hperm.
  - unfold detector.has_pii. apply Z.ltb_lt.
Qed.

Lemma summary_counts_add_up_witness :
  exists summary,
    detector.get_pii_summary
      (detector.PIIDetector_init (lit "en") 0.5 true
         (fixed_engine passport_and_state_id))
      (lit "Passport: 123456789 is on file") = Returns summary
    /\ detector.total_pii_found summary = 2
    /\ fold_right Z.add 0 (map snd (detector.type_counts summary)) = 2
    /\ detector.unique_pii_types summary = 2.
Proof.
  eexists. split; [vm_compute; reflexivity |].
  match goal with
  | |- detector.total_pii_found ?sm = 2 /\ _ =>
      destruct (summary_counts_add_up
                  (detector.PIIDetector_init (lit "en") 0.5 true
                     (fixed_engine passport_and_state_id))
                  (lit "Passport: 123456789 is on file") sm)
        as (dr & _ & _ & Hsum & _); [vm_compute; reflexivity |]
  end.
  split; [reflexivity |]. split; [exact Hsum | reflexivity].
Defined.

(** ** The tables *)

Lemma existsb_str_eqb (l : list str) (k : str) :
  existsb (str_eqb k) l = true <-> In k l.
Proof.
  rewrite existsb_exists. split.
  - intros (x & Hx & E). apply str_eqb_eq in E. now subst.
  - intros Hk. exists k. split; [exact Hk | apply str_eqb_refl].
Qed.

Lemma included_by_check (l l' : list str) :
  forallb (fun k => existsb (str_eqb k) l') l = true ->
  forall k, In k l -> In k l'.
Proof.
  intros Hall k Hk. rewrite forallb_forall in Hall.
  apply existsb_str_eqb. now apply Hall.
Qed.

(** X5. The entity types that the detector asks the analyzer for are
    exactly the entity types that have a replacement generator: for a
    match of a supported type [_generate_replacement] never falls back
    to the placeholder arm, and no generator is out of reach. *)
Theorem supported_entities_have_generators
    {F : Type} `{anonymizer.Faker F} (self : detector.PIIDetector)
    (entity_type : str) :
  In entity_type (detector.get_supported_entities self)
  <-> dict_contains (anonymizer._replacement_generators (F := F))
        entity_type = true.
Proof.
  rewrite dict_contains_keys. unfold detector.get_supported_entities.
  split; apply included_by_check; vm_compute; reflexivity.
Qed.

Lemma find_app {A} (g : A -> bool) (a b : list A) :
  find g (a ++ b) = match find g a with Some x => Some x | None => find g b end.
Proof.
  induction a as [|x a IH]; simpl; auto.
  destruct (g x); auto.
Qed.

Lemma dict_of_items_snoc {V} (l : list (str * V)) (k : str) (v : V) :
  dict_of_items (l ++ [(k, v)]) = dict_set (dict_of_items l) k v.
Proof. unfold dict_of_items. now rewrite fold_left_app. Qed.

(** A dict display or comprehension keeps, for a key, the last value
    given for it. *)
Lemma dict_of_items_last {V} (l : list (str * V)) (k : str) :
  dict_get (dict_of_items l) k
  = option_map snd (find (fun kv => str_eqb (fst kv) k) (rev l)).
Proof.
  induction l as [|[k' v'] l IH] using rev_ind; [reflexivity |].
  rewrite dict_of_items_snoc, rev_app_distr. simpl.
  destruct (str_eqb k' k) eqn:E.
  - apply str_eqb_eq in E. subst. apply dict_get_set_same.
  - apply str_eqb_neq in E. rewrite dict_get_set_other by assumption.
    exact IH.
Qed.

(** X6. [PRESIDIO_ENTITY_MAP] sends a Presidio entity to the code of the
    last PII type of [US_PII_TYPES] that names it, and has no entry for
    an entity that none names: where several PII types share an entity,
    the earlier ones are overwritten, so that CREDIT_CARD is mapped to
    DEBIT_CARD and LOCATION to ADDRESS. *)
Theorem presidio_entity_map_keeps_last (entity : str) :
  entity <> [] ->
  dict_get pii_types.PRESIDIO_ENTITY_MAP entity
  = option_map pii_types.code
      (find (fun pii =>
               match pii_types.presidio_entity pii with
               | Some e => str_eqb e entity
               | None => false
               end) (rev pii_types.US_PII_TYPES)).
Proof.
  intros Hne. unfold pii_types.PRESIDIO_ENTITY_MAP.
  rewrite dict_of_items_last.
  generalize pii_types.US_PII_TYPES as l.
  induction l as [|pii l IH]; [reflexivity |].
  simpl flat_map. simpl rev. rewrite rev_app_distr, !find_app.
  destruct (find _ (rev l)) as [p |].
  - destruct (find _ (rev (flat_map _ l))) as [kv |]; [exact IH |].
    discriminate IH.
  - destruct (find _ (rev (flat_map _ l))) as [kv |]; [discriminate IH |].
    cbn [find].
    destruct (pii_types.presidio_entity pii) as [[|c e] |]; simpl;
      try reflexivity.
    + destruct entity; [congruence | reflexivity].
    + match goal with
      | |- context [if ?b then _ else _] => destruct b
      end; reflexivity.
Qed.

Lemma presidio_entity_map_keeps_last_witness :
  lit "CREDIT_CARD" <> []
  /\ dict_get pii_types.PRESIDIO_ENTITY_MAP (lit "CREDIT_CARD")
     = Some (lit "DEBIT_CARD")
  /\ dict_get pii_types.PRESIDIO_ENTITY_MAP (lit "LOCATION")
     = Some (lit "ADDRESS").
Proof.
  split; [discriminate |]. split.
  - rewrite (presidio_entity_map_keeps_last (lit "CREDIT_CARD"))
      by discriminate.
    vm_compute. reflexivity.
  - rewrite (presidio_entity_map_keeps_last (lit "LOCATION"))
      by discriminate.
    vm_compute. reflexivity.
Defined.

(** ** Sorted lists of the same elements *)

Lemma sorted_perm_unique {A} (R : A -> A -> Prop) (l : list A) :
  forall l',
  (forall a b, In a l -> In b l -> R a b -> R b a -> a = b) ->
  StronglySorted R l -> StronglySorted R l' -> Permutation l l' -> l = l'.
Proof.
  induction l as [|x t IH]; intros l' Hanti Hs Hs' Hp.
  - apply Permutation_nil in Hp. now subst.
  - destruct l' as [|y t'].
    { apply Permutation_sym, Permutation_nil in Hp. discriminate. }
    inversion Hs as [| ? ? Hst Hx]; subst.
    inversion Hs' as [| ? ? Hst' Hy]; subst.
    assert (Exy : x = y).
    { assert (Hxin : In x (y :: t'))
        by (eapply Permutation_in; [exact Hp | now left]).
      assert (Hyin : In y (x :: t))
        by (eapply Permutation_in;
            [apply Permutation_sym; exact Hp | now left]).
      destruct Hxin as [-> | Hxt']; [reflexivity |].
      destruct Hyin as [-> | Hyt]; [reflexivity |].
      rewrite Forall_forall in Hx, Hy.
      apply Hanti; [now left | now right | now apply Hx | now apply Hy]. }
    subst y. f_equal.
    apply IH; auto.
    + intros a b Ha Hb. apply Hanti; now right.
    + now apply Permutation_cons_inv in Hp.
Qed.

Lemma NoDup_map_injective {A B} (f : A -> B) (l : list A) (a b : A) :
  NoDup (map f l) -> In a l -> In b l -> f a = f b -> a = b.
Proof.
  induction l as [|x l IH]; simpl; intros Hnd Ha Hb E; [contradiction |].
  inversion Hnd as [| ? ? Hnotin Hnd']; subst.
  destruct Ha as [-> | Ha], Hb as [-> | Hb]; auto.
  - exfalso. apply Hnotin. rewrite E. now apply in_map.
  - exfalso. apply Hnotin. rewrite <- E. now apply in_map.
Qed.

Lemma sorted_reverse_of_perm {A} (key : A -> Z) (l l' : list A) :
  NoDup (map key l) -> Permutation l l' ->
  sorted_reverse key l = sorted_reverse key l'.
Proof.
  intros Hnd Hp.
  apply (sorted_perm_unique (fun a b => key b <= key a)).
  - intros a b Ha Hb Hab Hba.
    apply (Permutation_in _ (sorted_reverse_perm key l)) in Ha, Hb.
    apply (NoDup_map_injective key l); auto. lia.
  - apply sorted_reverse_descending.
  - apply sorted_reverse_descending.
  - rewrite sorted_reverse_perm, Hp. symmetry. apply sorted_reverse_perm.
Qed.

(** ** The two entry points of the rewrite *)

Section EntryPoints.
Context {F : Type} `{anonymizer.Faker F}.

Lemma anonymize_text_of_matches (T : str) (ms : list detector.PIIMatch)
    (f : F) :
  anonymizer.anonymize_text T ms f
  = (fold_left apply_record
       (fst (records (sorted_reverse detector.start ms) f)) T,
     snd (records (sorted_reverse detector.start ms) f)).
Proof.
  destruct ms as [|m ms]; [reflexivity |].
  unfold anonymizer.anonymize_text. apply anonymize_text_loop.
Qed.

(** X7. [anonymize_text] and [anonymize] carry out the same rewrite and
    draw the same values from Faker whenever the count of the detection
    result says that there is PII, or there is no match: the text that
    [anonymize_text] returns for the text and the matches of the result
    is the [anonymized_text] of [anonymize], and Faker is left in the
    same state. *)
Theorem anonymize_text_agrees_with_anonymize
    (dr : detector.DetectionResult) (f : F) :
  detector.has_pii dr = true \/ detector.matches dr = [] ->
  anonymizer.anonymize_text (detector.dr_text dr) (detector.matches dr) f
  = (anonymizer.anonymized_text (fst (anonymizer.anonymize dr f)),
     snd (anonymizer.anonymize dr f)).
Proof.
  intros Hcase. rewrite anonymize_text_of_matches.
  destruct (detector.has_pii dr) eqn:Hpii.
  - now rewrite (anonymize_with_pii dr f Hpii).
  - destruct Hcase as [| Hnil]; [discriminate |].
    rewrite (anonymize_without_pii dr f Hpii), Hnil. reflexivity.
Qed.

(** X8. The rewrite does not depend on the order in which the matches
    are listed, provided that no two of them start at the same offset:
    for two lists with the same matches, [anonymize] returns the same
    result and the same Faker state, and so does [anonymize_text]. *)
Theorem anonymize_ignores_match_order
    (T : str) (ms ms' : list detector.PIIMatch) (count : Z)
    (found found' : list str) (f : F) :
  Permutation ms ms' ->
  NoDup (map detector.start ms) ->
  anonymizer.anonymize
    {| detector.dr_text := T; detector.matches := ms;
       detector.total_pii_count := count;
       detector.pii_types_found := found |} f
  = anonymizer.anonymize
      {| detector.dr_text := T; detector.matches := ms';
         detector.total_pii_count := count;
         detector.pii_types_found := found' |} f
  /\ anonymizer.anonymize_text T ms f = anonymizer.anonymize_text T ms' f.
Proof.
  intros Hp Hnd.
  pose proof (sorted_reverse_of_perm detector.start ms ms' Hnd Hp) as Es.
  split.
  - unfold anonymizer.anonymize, detector.has_pii. simpl. now rewrite Es.
  - rewrite !anonymize_text_of_matches. now rewrite Es.
Qed.

End EntryPoints.

Lemma anonymize_text_agrees_with_anonymize_witness :
  (detector.has_pii sample_detection_result = true
   \/ detector.matches sample_detection_result = [])
  /\ anonymizer.anonymize_text john_doe_text
       (detector.matches sample_detection_result) 0%nat
     = (anonymizer.anonymized_text
          (fst (anonymizer.anonymize sample_detection_result 0%nat)),
        snd (anonymizer.anonymize sample_detection_result 0%nat)).
Proof.
  split; [left; reflexivity |].
  apply (anonymize_text_agrees_with_anonymize sample_detection_result 0%nat).
  left. reflexivity.
Defined.

Lemma anonymize_ignores_match_order_witness :
  Permutation contact_matches (rev contact_matches)
  /\ NoDup (map detector.start contact_matches)
  /\ anonymizer.anonymize_text contact_text contact_matches 0%nat
     = anonymizer.anonymize_text contact_text (rev contact_matches) 0%nat.
Proof.
  assert (Hnd : NoDup (map detector.start contact_matches)).
  { simpl. repeat constructor; simpl; intuition discriminate. }
  split; [apply Permutation_rev |]. split; [exact Hnd |].
  apply (anonymize_ignores_match_order contact_text contact_matches
           (rev contact_matches) 2 [] [] 0%nat (Permutation_rev _) Hnd).
Defined.

(** ** From detection to anonymization *)

Section Pipeline.
Context {F : Type} `{anonymizer.Faker F}.

Lemma ledger_of_consistent_result (dr : detector.DetectionResult) (f : F) :
  detector.total_pii_count dr = len (detector.matches dr) ->
  let r := fst (anonymizer.anonymize dr f) in
  Permutation (map match_of_record (anonymizer.replacements r))
    (map match_fields (detector.matches dr))
  /\ ledger_ascending (anonymizer.replacements r)
  /\ anonymizer.total_replacements r = len (anonymizer.replacements r)
  /\ anonymizer.original_text r = detector.dr_text dr.
Proof.
  intros Hcount r. subst r. destruct (detector.has_pii dr) eqn:Hpii.
  - rewrite (anonymize_with_pii dr f Hpii). simpl.
    split; [| split; [| split]]; try reflexivity.
    + rewrite map_rev, records_fields, <- Permutation_rev.
      apply Permutation_map, sorted_reverse_perm.
    + apply (StronglySorted_rev
               (fun a b => anonymizer.position_start b
                           <= anonymizer.position_start a)).
      apply records_descending.
  - destruct (has_pii_of_count dr Hcount) as [Hp | Hnil]; [congruence |].
    rewrite (anonymize_without_pii dr f Hpii). simpl. rewrite Hnil.
    repeat split; constructor.
Qed.

(** X9. What [detect] returns can be handed to [anonymize] as it is, as
    the command line does: the result keeps the text that was detected
    on, [total_replacements] is the [total_pii_count] of the detection,
    the ledger has the fields of the matches with their starts in the
    order of the matches, and the original value of every record is the
    slice of the text at the position of the record. *)
Theorem anonymize_after_detect (self : detector.PIIDetector) (text : str)
    (dr : detector.DetectionResult) (f : F) :
  detector.detect self text = Returns dr ->
  let r := fst (anonymizer.anonymize dr f) in
  anonymizer.original_text r = text
  /\ anonymizer.total_replacements r = detector.total_pii_count dr
  /\ Permutation (map match_of_record (anonymizer.replacements r))
       (map match_fields (detector.matches dr))
  /\ map anonymizer.position_start (anonymizer.replacements r)
     = map detector.start (detector.matches dr)
  /\ Forall (fun rec =>
       anonymizer.original_value rec
       = slice text (anonymizer.position_start rec)
           (anonymizer.position_end rec))
       (anonymizer.replacements r).
Proof.
  intros Hd r.
  destruct (detect_invariants self text dr Hd)
    as (Htext & Hcount & _ & _ & _ & Hms).
  destruct (ledger_of_consistent_result dr f Hcount)
    as (Hperm & Hasc & Htot & Horig).
  fold r in Hperm, Hasc, Htot, Horig.
  assert (Hsorted : ascending_by_start (detector.matches dr)).
  { destruct (forallb isspace text) eqn:Hb.
    - rewrite (detect_of_blank self text Hb) in Hd. injection Hd as <-.
      constructor.
    - rewrite (detect_not_blank self text Hb) in Hd.
      destruct (detector.analyzer self); [| discriminate].
      injection Hd as <-. apply sorted_ascending. }
  split; [congruence |]. split.
  { rewrite Htot, Hcount. unfold len. f_equal.
    apply Permutation_length in Hperm. now rewrite !length_map in Hperm. }
  split; [exact Hperm |]. split.
  - apply (sorted_perm_unique Z.le).
    + intros a b _ _. lia.
    + apply (StronglySorted_map_iff anonymizer.position_start Z.le).
      exact Hasc.
    + apply (StronglySorted_map_iff detector.start Z.le). exact Hsorted.
    + apply (Permutation_map
               (fun x : str * str * Z * Z * Q =>
                  let '(_, _, s, _, _) := x in s)) in Hperm.
      rewrite !map_map in Hperm. exact Hperm.
  - apply Forall_forall. intros rec Hrec.
    assert (Hin : In (match_of_record rec)
                    (map match_fields (detector.matches dr))).
    { eapply Permutation_in; [exact Hperm |]. now apply in_map. }
    apply in_map_iff in Hin as (m & Em & Hm).
    destruct (Hms m Hm) as [Hslice _].
    unfold match_of_record, match_fields in Em.
    injection Em as E1 E2 E3 E4 E5.
    rewrite <- E2, <- E3, <- E4. exact Hslice.
Qed.

End Pipeline.

Lemma anonymize_after_detect_witness :
  exists dr,
    detector.detect
      (detector.PIIDetector_init (lit "en") 0.5 true
         (fixed_engine contact_results)) contact_text = Returns dr
    /\ let r := fst (anonymizer.anonymize dr 0%nat) in
       anonymizer.total_replacements r = 2
       /\ map anonymizer.original_value (anonymizer.replacements r)
          = [lit "John"; lit "john@test.com"]
       /\ anonymizer.anonymized_text r
          = lit "Contact Jane Smith at jane@example.org".
Proof.
  eexists. split; [vm_compute; reflexivity |].
  match goal with
  | |- let r := fst (anonymizer.anonymize ?dr _) in _ =>
      destruct (anonymize_after_detect
                  (detector.PIIDetector_init (lit "en") 0.5 true
                     (fixed_engine contact_results)) contact_text dr 0%nat)
        as (_ & Htot & _); [vm_compute; reflexivity |]
  end.
  split; [exact Htot |]. split; vm_compute; reflexivity.
Defined.

(** ** The length of the rewritten text *)

Lemma assemble_length (T : str) (L : list anonymizer.ReplacementInfo) :
  forall pos, 0 <= pos ->
  chain pos (map span_of_record L) (len T) ->
  len (assemble T pos L)
  = len T - pos + fold_right Z.add 0 (map growth L).
Proof.
  induction L as [|r L IH]; simpl; intros pos Hpos Hc.
  - rewrite slice_from_nonneg by assumption.
    unfold len in *. rewrite length_skipn. lia.
  - destruct Hc as (Hs & He & Hc).
    pose proof (chain_le _ _ _ Hc) as Hen.
    assert (Hpe : 0 <= anonymizer.position_end r) by lia.
    specialize (IH _ Hpe Hc).
    assert (Hlen : length (slice T pos (anonymizer.position_start r))
                   = Z.to_nat (anonymizer.position_start r - pos))
      by (apply slice_length; lia).
    unfold len in *. rewrite !length_app, Hlen.
    unfold growth at 1. unfold len. lia.
Qed.

(** X10. For matches whose spans are non-empty, within the text and
    pairwise non-overlapping, the rewritten text is as long as the text
    plus the sum, over the ledger, of the length of the replacement
    minus the length of the span. *)
Theorem rewrite_length {F : Type} `{anonymizer.Faker F}
    (T : str) (ms : list detector.PIIMatch) (found : list str) (f : F) :
  Forall (span_in_bounds T) ms ->
  non_overlapping ms ->
  let r :=
    fst (anonymizer.anonymize
           {| detector.dr_text := T; detector.matches := ms;
              detector.total_pii_count := len ms;
              detector.pii_types_found := found |} f) in
  len (anonymizer.anonymized_text r)
  = len T + fold_right Z.add 0 (map growth (anonymizer.replacements r)).
Proof.
  intros Hok Hno r. subst r.
  destruct (has_pii_of_count
              {| detector.dr_text := T; detector.matches := ms;
                 detector.total_pii_count := len ms;
                 detector.pii_types_found := found |} eq_refl)
    as [Hpii | Hnil].
  - rewrite (anonymize_with_pii _ f Hpii).
    cbn [fst anonymizer.replacements anonymizer.anonymized_text
         detector.matches detector.dr_text].
    rewrite (rewrite_of_ledger T ms f Hok Hno).
    rewrite assemble_length; [lia | lia |].
    now apply ledger_chain.
  - simpl in Hnil. subst ms.
    rewrite anonymize_without_pii by reflexivity. simpl. lia.
Qed.

Lemma rewrite_length_witness :
  Forall (span_in_bounds contact_text) contact_matches
  /\ non_overlapping contact_matches
  /\ let r :=
       fst (anonymizer.anonymize
              {| detector.dr_text := contact_text;
                 detector.matches := contact_matches;
                 detector.total_pii_count := len contact_matches;
                 detector.pii_types_found := [] |} 0%nat) in
     len (anonymizer.anonymized_text r) = 29 + ((10 - 4) + (16 - 13)).
Proof.
  assert (Hok : Forall (span_in_bounds contact_text) contact_matches).
  { unfold contact_matches.
    repeat (apply Forall_cons;
            [cbv; repeat split; try reflexivity; intro; discriminate |]).
    apply Forall_nil. }
  assert (Hno : non_overlapping contact_matches).
  { unfold non_overlapping, disjoint. simpl.
    repeat constructor; simpl; lia. }
  split; [exact Hok |]. split; [exact Hno |].
  intros r. subst r.
  rewrite (rewrite_length contact_text contact_matches [] 0%nat Hok Hno).
  reflexivity.
Defined.

(** ** More on mappings *)

Lemma replace_absent (s k v : str) :
  contains s k = false -> replace s k v = s.
Proof.
  intros Hc. destruct k as [|c k].
  - destruct s; discriminate.
  - now apply replace_scan_free.
Qed.

Lemma passes_absent (passes : list (str * str)) (text : str) :
  (forall kv, In kv passes -> contains text (fst kv) = false) ->
  fold_left (fun result kv => replace result (fst kv) (snd kv)) passes text
  = text.
Proof.
  induction passes as [|[k v] passes IH]; intros Hall; simpl; auto.
  rewrite (replace_absent text k v) by (apply (Hall (k, v)); now left).
  apply IH. intros kv Hkv. apply Hall. now right.
Qed.

(** X11. A mapping none of whose keys occurs in the text leaves the text
    as it is; so does the empty mapping. *)
Theorem mapping_without_occurrence (text : str) (mapping : dict str) :
  (forall k v, In (k, v) (items mapping) -> contains text k = false) ->
  anonymizer.anonymize_with_mapping text mapping = text.
Proof.
  intros Hall. unfold anonymizer.anonymize_with_mapping.
  apply passes_absent. intros [k v] Hkv.
  apply (Hall k v).
  eapply Permutation_in; [apply sorted_reverse_perm | exact Hkv].
Qed.

Lemma mapping_without_occurrence_witness :
  (forall k v, In (k, v) [(lit "John Doe", lit "Jane Smith")] ->
               contains (lit "No PII here") k = false)
  /\ anonymizer.anonymize_with_mapping (lit "No PII here")
       [(lit "John Doe", lit "Jane Smith")] = lit "No PII here".
Proof.
  assert (Hall : forall k v, In (k, v) [(lit "John Doe", lit "Jane Smith")] ->
                             contains (lit "No PII here") k = false).
  { intros k v [E | []]. injection E as <- _. reflexivity. }
  split; [exact Hall |].
  exact (mapping_without_occurrence (lit "No PII here")
           [(lit "John Doe", lit "Jane Smith")] Hall).
Defined.

(** X12. Longer keys are replaced first, whatever the order of the
    entries: with a key [k1] shorter than a key [k2], a text made of
    pieces separated by [k2] becomes the pieces separated by the value of
    [k2], even when [k1] is a part of [k2], as long as [k1] does not
    occur in the outcome. *)
Theorem mapping_longest_key_first (k1 v1 k2 v2 : str) (ps : list str)
    (last : str) :
  len k1 < len k2 ->
  Forall (clear_of k2) ps -> contains last k2 = false ->
  contains (join v2 (ps ++ [last])) k1 = false ->
  anonymizer.anonymize_with_mapping (join k2 (ps ++ [last]))
    [(k1, v1); (k2, v2)] = join v2 (ps ++ [last])
  /\ anonymizer.anonymize_with_mapping (join k2 (ps ++ [last]))
       [(k2, v2); (k1, v1)] = join v2 (ps ++ [last]).
Proof.
  intros Hlen Hps Hlast Hfree.
  assert (Hk2 : k2 <> []).
  { intros ->. pose proof (len_nonneg k1). unfold len in *. simpl in *. lia. }
  assert (Hlt : (len k1 <? len k2) = true) by now apply Z.ltb_lt.
  assert (Hge : (len k2 <? len k1) = false) by (apply Z.ltb_ge; lia).
  unfold anonymizer.anonymize_with_mapping, items, sorted_reverse,
    sort_stable.
  split; simpl; rewrite ?Hlt, ?Hge; simpl;
    rewrite replace_join by assumption;
    now apply replace_absent.
Qed.

Lemma mapping_longest_key_first_witness :
  len (lit "John") < len (lit "John Doe")
  /\ anonymizer.anonymize_with_mapping
       (join (lit "John Doe") ([[]; lit " and "] ++ [lit " again"]))
       [(lit "John", lit "Bob"); (lit "John Doe", lit "Jane Smith")]
     = lit "Jane Smith and Jane Smith again".
Proof.
  split; [reflexivity |].
  assert (Hps : Forall (clear_of (lit "John Doe")) [[]; lit " and "]).
  { constructor; [| constructor; [| constructor]]; intros i Hi.
    - simpl in Hi. lia.
    - do 5 (destruct i as [|i]; [vm_compute; reflexivity |]).
      simpl in Hi. lia. }
  destruct (mapping_longest_key_first (lit "John") (lit "Bob")
              (lit "John Doe") (lit "Jane Smith") [[]; lit " and "]
              (lit " again") eq_refl Hps eq_refl eq_refl) as [Hfirst _].
  exact Hfirst.
Defined.

Lemma set_add_present (s : list str) (k : str) :
  In k s -> set_add s k = s.
Proof.
  induction s as [|x s IH]; [contradiction |].
  simpl. destruct (str_eqb x k) eqn:E; [reflexivity |].
  apply str_eqb_neq in E. intros [| Hin]; [congruence |].
  now rewrite IH.
Qed.

Lemma set_add_absent (s : list str) (k : str) :
  ~ In k s -> set_add s k = s ++ [k].
Proof.
  induction s as [|x s IH]; [reflexivity |].
  simpl. intros Hno. destruct (str_eqb x k) eqn:E.
  - apply str_eqb_eq in E. subst. exfalso. apply Hno. now left.
  - rewrite IH; [reflexivity |]. intros Hin. apply Hno. now right.
Qed.

Lemma mapping_keys_loop {F : Type} `{anonymizer.Faker F}
    (ms : list detector.PIIMatch) :
  forall (d : dict str) (f : F),
  map fst (fst (anonymizer.for_each anonymizer.mapping_step ms d f))
  = fold_left set_add (map detector.text ms) (map fst d).
Proof.
  induction ms as [|m ms IH]; intros d f; [reflexivity |].
  simpl. unfold anonymizer.bind.
  destruct (dict_contains d (detector.text m)) eqn:Hc.
  - assert (Hs : anonymizer.mapping_step d m f = (d, f))
      by (unfold anonymizer.mapping_step; now rewrite Hc).
    rewrite Hs, IH. f_equal. symmetry.
    apply set_add_present. now apply dict_contains_keys.
  - destruct (anonymizer._generate_replacement (detector.entity_type m) f)
      as [v f1] eqn:Eg.
    assert (Hs : anonymizer.mapping_step d m f
                 = (dict_set d (detector.text m) v, f1)).
    { unfold anonymizer.mapping_step, anonymizer.bind. rewrite Hc. simpl.
      now rewrite Eg. }
    rewrite Hs, IH. f_equal.
    rewrite dict_set_new_key by assumption. symmetry.
    apply set_add_absent.
    intros Hin. apply dict_contains_keys in Hin. congruence.
Qed.

(** X13. The keys of the mapping built for a detection result are the
    texts of its matches, each once, in the order of their first match;
    a detection result without matches gives the empty mapping and
    draws nothing from Faker. *)
Theorem mapping_keys_are_match_texts {F : Type} `{anonymizer.Faker F}
    (dr : detector.DetectionResult) (f : F) :
  map fst (fst (anonymizer.get_replacement_mapping dr f))
  = fold_left set_add (map detector.text (detector.matches dr)) []
  /\ (detector.matches dr = [] ->
      anonymizer.get_replacement_mapping dr f = ([], f)).
Proof.
  split.
  - unfold anonymizer.get_replacement_mapping.
    now rewrite mapping_keys_loop.
  - intros Hnil. unfold anonymizer.get_replacement_mapping.
    now rewrite Hnil.
Qed.

Lemma mapping_keys_are_match_texts_witness :
  map fst (fst (anonymizer.get_replacement_mapping john_doe_twice 0%nat))
  = [lit "John Doe"].
Proof.
  destruct (mapping_keys_are_match_texts john_doe_twice 0%nat) as [Hk _].
  rewrite Hk. reflexivity.
Defined.

(** ** Escaping for the PDF *)

Lemma startswith_nil (s : str) : startswith s [] = true.
Proof. now destruct s. Qed.

(** Replacing a single character acts on each character by itself. *)
Lemma replace_char (s : str) (c : char) (new : str) :
  replace s [c] new = flat_map (fun x => if (x =? c)%N then new else [x]) s.
Proof.
  unfold replace. induction s as [|x s IH]; [reflexivity |].
  cbn [replace_scan startswith flat_map length].
  rewrite startswith_nil, andb_true_r, N.eqb_sym.
  destruct (x =? c)%N; simpl; now rewrite IH.
Qed.

Lemma flat_map_flat_map {A B C} (f : A -> list B) (g : B -> list C)
    (l : list A) :
  flat_map g (flat_map f l) = flat_map (fun x => flat_map g (f x)) l.
Proof.
  induction l as [|x l IH]; [reflexivity |].
  simpl. now rewrite flat_map_app, IH.
Qed.

Lemma escape_text_by_char (text : str) :
  pdf_generator._escape_text text = flat_map escape_char text.
Proof.
  unfold pdf_generator._escape_text. cbn [fold_left fst snd].
  change (lit "&") with [38%N]. change (lit "<") with [60%N].
  change (lit ">") with [62%N].
  rewrite !replace_char, !flat_map_flat_map.
  apply flat_map_ext. intros x. unfold escape_char.
  destruct (N.eqb_spec x 38) as [-> | H38]; [reflexivity |].
  cbn [flat_map app].
  destruct (N.eqb_spec x 60) as [-> | H60]; [reflexivity |].
  cbn [flat_map app].
  destruct (N.eqb_spec x 62) as [-> | H62]; reflexivity.
Qed.

Lemma escape_char_markup_free (c : char) : markup_free (escape_char c).
Proof.
  unfold escape_char, markup_free.
  destruct (N.eqb_spec c 38); [repeat constructor; discriminate |].
  destruct (N.eqb_spec c 60); [repeat constructor; discriminate |].
  destruct (N.eqb_spec c 62); [repeat constructor; discriminate |].
  repeat constructor; assumption.
Qed.

Lemma escape_char_plain (c : char) :
  c <> 38%N -> c <> 60%N -> c <> 62%N -> escape_char c = [c].
Proof.
  intros H1 H2 H3. unfold escape_char.
  destruct (N.eqb_spec c 38); [contradiction |].
  destruct (N.eqb_spec c 60); [contradiction |].
  destruct (N.eqb_spec c 62); [contradiction | reflexivity].
Qed.

(** X14. Escaping acts on each character by itself: [&], [<] and [>]
    become their entities and every other character stays, the
    ampersands of the entities not being escaped again. So the escape
    of a concatenation is the concatenation of the escapes, the outcome
    has no [<] and no [>], and a text without the three characters is
    left as it is. *)
Theorem escape_text_characterised (text : str) :
  pdf_generator._escape_text text = flat_map escape_char text
  /\ (forall more,
        pdf_generator._escape_text (text ++ more)
        = pdf_generator._escape_text text ++ pdf_generator._escape_text more)
  /\ markup_free (pdf_generator._escape_text text)
  /\ (Forall (fun c => c <> 38%N /\ c <> 60%N /\ c <> 62%N) text ->
      pdf_generator._escape_text text = text).
Proof.
  split; [apply escape_text_by_char |]. split; [| split].
  - intros more. rewrite !escape_text_by_char. apply flat_map_app.
  - rewrite escape_text_by_char. unfold markup_free.
    induction text as [|c text IH]; simpl; [constructor |].
    apply Forall_app. split; [apply escape_char_markup_free | exact IH].
  - rewrite escape_text_by_char.
    induction 1 as [|c text (H1 & H2 & H3) _ IH]; simpl; [reflexivity |].
    rewrite escape_char_plain by assumption. simpl. now rewrite IH.
Qed.

Lemma escape_text_characterised_witness :
  pdf_generator._escape_text (lit "a<b & c>d") = lit "a&lt;b &amp; c&gt;d"
  /\ Forall (fun c => c <> 38%N /\ c <> 60%N /\ c <> 62%N) (lit "John Doe")
  /\ pdf_generator._escape_text (lit "John Doe") = lit "John Doe".
Proof.
  destruct (escape_text_characterised (lit "a<b & c>d")) as (Hc & _).
  destruct (escape_text_characterised (lit "John Doe")) as (_ & _ & _ & Hp).
  assert (Hall : Forall (fun c => c <> 38%N /\ c <> 60%N /\ c <> 62%N)
                   (lit "John Doe"))
    by (repeat constructor; discriminate).
  split; [rewrite Hc; reflexivity |]. split; [exact Hall | exact (Hp Hall)].
Defined.

Lemma escape_char_cancel (x y : char) (a b : str) :
  escape_char x ++ a = escape_char y ++ b -> x = y /\ a = b.
Proof.
  unfold escape_char.
  destruct (N.eqb_spec x 38) as [-> | Hx1];
    [| destruct (N.eqb_spec x 60) as [-> | Hx2];
       [| destruct (N.eqb_spec x 62) as [-> | Hx3]]];
    (destruct (N.eqb_spec y 38) as [-> | Hy1];
     [| destruct (N.eqb_spec y 60) as [-> | Hy2];
        [| destruct (N.eqb_spec y 62) as [-> | Hy3]]]);
    cbn; intros E; inversion E; subst; try congruence; auto.
Qed.

(** X15. Escaping loses nothing: two texts with the same escape are the
    same text. *)
Theorem escape_text_injective (a b : str) :
  pdf_generator._escape_text a = pdf_generator._escape_text b -> a = b.
Proof.
  rewrite !escape_text_by_char.
  revert b; induction a as [|x a IH]; intros [|y b] E; simpl in E.
  - reflexivity.
  - exfalso. unfold escape_char in E.
    destruct (y =? 38)%N, (y =? 60)%N, (y =? 62)%N; discriminate.
  - exfalso. unfold escape_char in E.
    destruct (x =? 38)%N, (x =? 60)%N, (x =? 62)%N; discriminate.
  - apply escape_char_cancel in E as [-> E]. f_equal. now apply IH.
Qed.

Lemma escape_text_injective_witness :
  pdf_generator._escape_text (lit "<&>") = pdf_generator._escape_text (lit "<&>")
  /\ lit "<&>" = lit "<&>".
Proof.
  split; [reflexivity |].
  apply (escape_text_injective (lit "<&>") (lit "<&>")). reflexivity.
Defined.

(** ** The story of a PDF *)

Lemma blank_all_space (s : str) :
  pdf_generator.blank s = true <-> forallb isspace s = true.
Proof.
  unfold pdf_generator.blank. rewrite <- strip_nil_iff.
  destruct (strip s); split; congruence.
Qed.

Lemma blank_nil : pdf_generator.blank [] = true.
Proof. reflexivity. Qed.

(** The pieces of a split are made of characters of the text. *)
Lemma split_scan_pieces (P : char -> Prop) (sep s : str) (skip : nat)
    (cur : str) :
  Forall P s -> Forall P cur -> Forall (Forall P) (split_scan sep s skip cur).
Proof.
  revert skip cur. induction s as [|c s IH]; intros skip cur Hs Hcur.
  - simpl. constructor; [| constructor]. now apply Forall_rev.
  - inversion Hs as [| ? ? Hc Hs']; subst. cbn [split_scan].
    destruct skip as [|k]; [| now apply IH].
    destruct (startswith (c :: s) sep).
    + constructor; [now apply Forall_rev | apply IH; auto].
    + apply IH; auto.
Qed.

Lemma split_blank (text sep : str) :
  forallb isspace text = true ->
  Forall (fun p => pdf_generator.blank p = true) (split text sep).
Proof.
  intros Hb.
  assert (H : Forall (Forall (fun c => isspace c = true)) (split text sep)).
  { apply split_scan_pieces; [| constructor].
    apply Forall_forall. now apply forallb_forall. }
  eapply Forall_impl; [| exact H].
  intros p Hp. apply blank_all_space, forallb_forall.
  now apply Forall_forall.
Qed.

(** A text without the separator is one piece. *)
Lemma split_scan_free (sep s cur : str) :
  contains s sep = false -> split_scan sep s 0 cur = [rev cur ++ s].
Proof.
  revert cur. induction s as [|c s IH]; intros cur Hc.
  - simpl. now rewrite app_nil_r.
  - cbn [contains] in Hc. apply orb_false_iff in Hc as [Hs Hc].
    cbn [split_scan]. rewrite Hs, IH by exact Hc.
    simpl. now rewrite <- app_assoc.
Qed.

Lemma split_free (s sep : str) : contains s sep = false -> split s sep = [s].
Proof. intros H. unfold split. now rewrite split_scan_free. Qed.

Lemma split_scan_skip (sep a rest cur : str) :
  split_scan sep (a ++ rest) (length a) cur = split_scan sep rest 0 cur.
Proof.
  induction a as [|c a IH]; simpl; auto.
Qed.

(** The leftmost separator ends the piece that is being read. *)
Lemma split_scan_clear (sep p rest cur : str) :
  sep <> [] -> clear_of sep p ->
  split_scan sep (p ++ sep ++ rest) 0 cur
  = (rev cur ++ p) :: split_scan sep rest 0 [].
Proof.
  intros Hk. revert cur. induction p as [|c p IH]; intros cur Hclear.
  - destruct sep as [|c k]; [congruence |]. simpl app.
    change (split_scan (c :: k) (c :: k ++ rest) 0 cur)
      with (if startswith ((c :: k) ++ rest) (c :: k)
            then rev cur :: split_scan (c :: k) (k ++ rest)
                              (length (c :: k) - 1) []
            else split_scan (c :: k) (k ++ rest) 0 (c :: cur)).
    rewrite startswith_app.
    replace (length (c :: k) - 1)%nat with (length k) by (simpl; lia).
    now rewrite split_scan_skip, app_nil_r.
  - assert (H0 : startswith ((c :: p) ++ sep ++ rest) sep = false).
    { rewrite app_assoc, startswith_app_long.
      - apply (Hclear 0%nat). simpl; lia.
      - rewrite length_app. lia. }
    change (split_scan sep ((c :: p) ++ sep ++ rest) 0 cur)
      with (if startswith ((c :: p) ++ sep ++ rest) sep
            then rev cur :: split_scan sep (p ++ sep ++ rest)
                              (length sep - 1) []
            else split_scan sep (p ++ sep ++ rest) 0 (c :: cur)).
    rewrite H0, IH.
    + simpl. now rewrite <- app_assoc.
    + intros i Hi. apply (Hclear (S i)). simpl; lia.
Qed.

Lemma split_join (sep : str) (ps : list str) (last : str) :
  sep <> [] -> Forall (clear_of sep) ps -> contains last sep = false ->
  split (join sep (ps ++ [last])) sep = ps ++ [last].
Proof.
  intros Hk Hps Hlast. unfold split.
  induction Hps as [|p ps Hp Hps IH].
  - simpl. now rewrite split_scan_free.
  - change ((p :: ps) ++ [last]) with (p :: (ps ++ [last])).
    rewrite join_cons by (destruct ps; discriminate).
    rewrite split_scan_clear by assumption.
    simpl. now rewrite IH.
Qed.

(** A page without a blank line that does not end in a newline is
    clear of the separator of pages. *)
Lemma clear_of_page_separator (p : str) :
  contains p [10%N; 10%N] = false -> layout.open_ended p ->
  clear_of [10%N; 10%N] p.
Proof.
  unfold layout.open_ended, clear_of.
  induction p as [|c p IH]; intros Hc Hlast i Hi; [simpl in Hi; lia |].
  cbn [contains] in Hc. apply orb_false_iff in Hc as [Hs Hc].
  destruct i as [|i].
  - cbn [skipn app]. destruct p as [|d p].
    + simpl in Hlast. cbn [app startswith].
      destruct (N.eqb_spec 10 c) as [<- | Hne]; [congruence | reflexivity].
    + cbn [app startswith] in *.
      rewrite startswith_nil in Hs. now rewrite startswith_nil.
  - cbn [skipn app]. apply IH; [exact Hc | | simpl in Hi; lia].
    destruct p as [|d p]; [simpl in Hi; lia | exact Hlast].
Qed.

Lemma paragraph_step_line (story : list pdf_generator.Flowable) (para : str) :
  pdf_generator.paragraph_step story para
  = story ++ [layout.line_flowable para].
Proof.
  unfold pdf_generator.paragraph_step, layout.line_flowable.
  now destruct (pdf_generator.blank para).
Qed.

Lemma paragraphs_loop (paragraphs : list str)
    (story : list pdf_generator.Flowable) :
  fold_left pdf_generator.paragraph_step paragraphs story
  = story ++ map layout.line_flowable paragraphs.
Proof.
  revert story. induction paragraphs as [|para l IH]; intros story; simpl.
  - now rewrite app_nil_r.
  - now rewrite IH, paragraph_step_line, <- app_assoc.
Qed.

Lemma escape_text_nonempty (s : str) :
  s <> [] -> pdf_generator._escape_text s <> [].
Proof.
  rewrite escape_text_by_char. destruct s as [|c s]; [congruence |].
  intros _. simpl. unfold escape_char.
  destruct (c =? 38)%N, (c =? 60)%N, (c =? 62)%N; discriminate.
Qed.

Lemma escape_text_markup_free (s : str) :
  markup_free (pdf_generator._escape_text s).
Proof.
  rewrite escape_text_by_char. unfold markup_free.
  induction s as [|c s IH]; simpl; [constructor |].
  apply Forall_app. split; [apply escape_char_markup_free | exact IH].
Qed.

Lemma line_flowable_well_formed (para : str) :
  layout.well_formed (layout.line_flowable para).
Proof.
  unfold layout.line_flowable.
  destruct (pdf_generator.blank para) eqn:Hb; simpl; [auto |].
  split; [apply escape_text_markup_free |]. split; [| now right].
  apply escape_text_nonempty. intros ->. now rewrite blank_nil in Hb.
Qed.

Lemma title_flowables_well_formed (title : option str) :
  Forall layout.well_formed (pdf_generator.title_flowables title).
Proof.
  destruct title as [[|c t] |]; simpl; try constructor.
  - split; [apply escape_text_markup_free |]. split; [| now left].
    apply escape_text_nonempty. discriminate.
  - constructor; [simpl; auto | constructor].
Qed.

Lemma page_step_well_formed (pages : list str)
    (story : list pdf_generator.Flowable) (ip : Z * str) :
  Forall layout.well_formed story ->
  Forall layout.well_formed (pdf_generator.page_step pages story ip).
Proof.
  intros Hs. destruct ip as [i page_text]. unfold pdf_generator.page_step.
  destruct (pdf_generator.blank page_text); [exact Hs |].
  assert (Hl : Forall layout.well_formed
                 (fold_left pdf_generator.paragraph_step
                    (split page_text [10%N]) story)).
  { rewrite paragraphs_loop. apply Forall_app. split; [exact Hs |].
    apply Forall_forall. intros fl Hfl.
    apply in_map_iff in Hfl as (para & <- & _).
    apply line_flowable_well_formed. }
  destruct (i <? len pages - 1); [| exact Hl].
  apply Forall_app. split; [exact Hl |].
  constructor; [simpl; auto | constructor].
Qed.

(** X16. Whatever the text and the title, the story of [_build_story]
    holds only paragraphs in the title or the body style, whose text is
    not empty and has no [<] or [>] left, and spacers one unit wide and
    6 or 12 units high; it holds no page break. *)
Theorem build_story_well_formed (text : str) (title : option str) :
  Forall layout.well_formed (pdf_generator._build_story text title).
Proof.
  unfold pdf_generator._build_story.
  generalize (pdf_generator.enumerate (split text [10%N; 10%N])) as l.
  generalize (title_flowables_well_formed title).
  generalize (pdf_generator.title_flowables title) as story.
  intros story Hs l. revert story Hs.
  induction l as [|ip l IH]; intros story Hs; simpl; [exact Hs |].
  apply IH. now apply page_step_well_formed.
Qed.

Lemma pages_loop_blank (step : list pdf_generator.Flowable -> Z * str ->
                               list pdf_generator.Flowable)
    (l : list (Z * str)) (story : list pdf_generator.Flowable) :
  (forall story ip, pdf_generator.blank (snd ip) = true ->
                    step story ip = story) ->
  Forall (fun ip => pdf_generator.blank (snd ip) = true) l ->
  fold_left step l story = story.
Proof.
  intros Hstep Hl. induction Hl as [|ip l Hip _ IH]; simpl; [reflexivity |].
  now rewrite Hstep.
Qed.

Lemma enumerate_snd {A} (P : A -> Prop) (l : list A) :
  Forall P l -> Forall (fun ip => P (snd ip)) (pdf_generator.enumerate l).
Proof.
  unfold pdf_generator.enumerate. intros Hl.
  apply Forall_forall. intros [i x] Hin. apply in_combine_r in Hin.
  rewrite Forall_forall in Hl. now apply Hl.
Qed.

Lemma page_step_blank (pages : list str)
    (story : list pdf_generator.Flowable) (ip : Z * str) :
  pdf_generator.blank (snd ip) = true ->
  pdf_generator.page_step pages story ip = story.
Proof.
  destruct ip as [i p]. simpl. intros Hb.
  unfold pdf_generator.page_step. now rewrite Hb.
Qed.

Lemma multi_page_step_blank (pages : list str)
    (story : list pdf_generator.Flowable) (ip : Z * str) :
  pdf_generator.blank (snd ip) = true ->
  pdf_generator.multi_page_step pages story ip = story.
Proof.
  destruct ip as [i p]. simpl. intros Hb.
  unfold pdf_generator.multi_page_step. now rewrite Hb.
Qed.

(** X17. A text that is empty or all whitespace adds nothing to the
    story: [_build_story] returns the title and its spacer when there is
    a title, and an empty story otherwise. So does [generate_multi_page]
    for pages that are all blank. *)
Theorem build_story_blank_text (text : str) (page_texts : list str)
    (title : option str) :
  forallb isspace text = true ->
  Forall (fun p => forallb isspace p = true) page_texts ->
  pdf_generator._build_story text title = pdf_generator.title_flowables title
  /\ pdf_generator._build_story text None = []
  /\ pdf_generator.generate_multi_page_story page_texts title
     = pdf_generator.title_flowables title.
Proof.
  intros Hb Hps.
  assert (H1 : forall title,
             pdf_generator._build_story text title
             = pdf_generator.title_flowables title).
  { intros t. unfold pdf_generator._build_story.
    apply pages_loop_blank; [apply page_step_blank |].
    apply (enumerate_snd (fun p => pdf_generator.blank p = true)).
    now apply split_blank. }
  split; [apply H1 |]. split; [apply (H1 None) |].
  unfold pdf_generator.generate_multi_page_story.
  apply pages_loop_blank; [apply multi_page_step_blank |].
  apply (enumerate_snd (fun p => pdf_generator.blank p = true)).
  eapply Forall_impl; [| exact Hps]. intros p. apply blank_all_space.
Qed.

Lemma build_story_blank_text_witness :
  forallb isspace (lit "  ") = true
  /\ pdf_generator._build_story (lit "  ") (Some (lit "Report"))
     = [pdf_generator.Paragraph (lit "Report") (lit "title");
        pdf_generator.Spacer 1 12].
Proof.
  split; [reflexivity |].
  destruct (build_story_blank_text (lit "  ") [lit " "; []]
              (Some (lit "Report")) eq_refl) as (H1 & _).
  - repeat constructor.
  - rewrite H1. reflexivity.
Defined.

(** X18. For a text that is not blank and has no blank line (no two
    newlines in a row) the story is the title, when there is one, and
    one flowable for each line of the text in their order: a spacer six
    units high for a line that is empty or whitespace, and a paragraph in
    the body style holding the escaped line otherwise. No spacer follows
    the only page. *)
Theorem build_story_single_page (text : str) (title : option str) :
  pdf_generator.blank text = false ->
  contains text [10%N; 10%N] = false ->
  pdf_generator._build_story text title
  = pdf_generator.title_flowables title
    ++ map layout.line_flowable (split text [10%N]).
Proof.
  intros Hb Hc. unfold pdf_generator._build_story.
  rewrite (split_free text _ Hc).
  cbn [pdf_generator.enumerate length seq map combine fold_left].
  unfold pdf_generator.page_step. rewrite Hb.
  cbn [len length Z.of_nat]. simpl (0 <? _).
  apply paragraphs_loop.
Qed.

Lemma build_story_single_page_witness :
  pdf_generator.blank (lit "Dear A & B," ++ [10%N] ++ lit " " ++ [10%N]
                       ++ lit "Name: <Jane>") = false
  /\ pdf_generator._build_story
       (lit "Dear A & B," ++ [10%N] ++ lit " " ++ [10%N]
        ++ lit "Name: <Jane>") None
     = [pdf_generator.Paragraph (lit "Dear A &amp; B,") (lit "body");
        pdf_generator.Spacer 1 6;
        pdf_generator.Paragraph (lit "Name: &lt;Jane&gt;") (lit "body")].
Proof.
  split; [reflexivity |].
  rewrite (build_story_single_page
             (lit "Dear A & B," ++ [10%N] ++ lit " " ++ [10%N]
              ++ lit "Name: <Jane>") None eq_refl eq_refl).
  reflexivity.
Defined.

(** ** Pages *)

(** X19. The pages of an OCR result are recovered from its [full_text]
    by the split of [_build_story], as long as there is a page, no page
    text holds a blank line, and no page text but the last ends in a
    newline. *)
Theorem full_text_pages_recovered (self : ocr.OCRResult) :
  ocr.pages self <> [] ->
  Forall (fun p => contains (ocr.text p) [10%N; 10%N] = false)
    (ocr.pages self) ->
  Forall (fun p => layout.open_ended (ocr.text p))
    (removelast (ocr.pages self)) ->
  split (ocr.full_text self) [10%N; 10%N] = map ocr.text (ocr.pages self).
Proof.
  unfold ocr.full_text. generalize (ocr.pages self) as l.
  intros l Hne. destruct l as [|p ps _] using rev_ind; intros Hfree Hopen.
  - congruence.
  - rewrite removelast_last in Hopen. rewrite map_app. simpl map.
    apply Forall_app in Hfree as [Hps Hp].
    inversion Hp as [| ? ? Hlast _]; subst.
    apply split_join; [discriminate | | exact Hlast].
    apply Forall_forall. intros t Ht.
    apply in_map_iff in Ht as (q & <- & Hq).
    rewrite Forall_forall in Hps, Hopen.
    apply clear_of_page_separator; auto.
Qed.

Lemma full_text_pages_recovered_witness :
  let self := {| ocr.pages :=
                   [ {| ocr.page_number := 1; ocr.text := lit "John Doe";
                        ocr.confidence := 0.9; ocr.width := 612;
                        ocr.height := 792 |};
                     {| ocr.page_number := 2;
                        ocr.text := lit "SSN" ++ [10%N] ++ lit "123-45-6789"
                                    ++ [10%N];
                        ocr.confidence := 0.8; ocr.width := 612;
                        ocr.height := 792 |} ];
                 ocr.total_pages := 2; ocr.source_path := None |} in
  ocr.pages self <> []
  /\ split (ocr.full_text self) [10%N; 10%N]
     = [lit "John Doe"; lit "SSN" ++ [10%N] ++ lit "123-45-6789" ++ [10%N]].
Proof.
  intros self. split; [discriminate |].
  apply (full_text_pages_recovered self).
  - discriminate.
  - repeat constructor.
  - repeat constructor. vm_compute. discriminate.
Defined.

Lemma paragraphs_loop_map (f : pdf_generator.Flowable ->
                               pdf_generator.Flowable)
    (paragraphs : list str) (story : list pdf_generator.Flowable) :
  (forall para, f (layout.line_flowable para) = layout.line_flowable para) ->
  map f (fold_left pdf_generator.paragraph_step paragraphs story)
  = fold_left pdf_generator.paragraph_step paragraphs (map f story).
Proof.
  intros Hf. rewrite !paragraphs_loop, map_app, map_map.
  f_equal. apply map_ext. exact Hf.
Qed.

Lemma spacer_for_break_line (para : str) :
  layout.spacer_for_break (layout.line_flowable para)
  = layout.line_flowable para.
Proof.
  unfold layout.line_flowable. now destruct (pdf_generator.blank para).
Qed.

Lemma page_step_of_multi_page_step (pages : list str)
    (story : list pdf_generator.Flowable) (ip : Z * str) :
  map layout.spacer_for_break (pdf_generator.multi_page_step pages story ip)
  = pdf_generator.page_step pages (map layout.spacer_for_break story) ip.
Proof.
  destruct ip as [i page_text].
  unfold pdf_generator.multi_page_step, pdf_generator.page_step.
  destruct (pdf_generator.blank page_text); [reflexivity |].
  destruct (i <? len pages - 1).
  - rewrite map_app.
    now rewrite paragraphs_loop_map by apply spacer_for_break_line.
  - now rewrite paragraphs_loop_map by apply spacer_for_break_line.
Qed.

(** X20. [_build_story] lays a text out as [generate_multi_page] lays
    out the pages that the text splits into at blank lines, but for the
    page breaks: where the latter puts a page break the former puts a
    spacer twelve units high. *)
Theorem build_story_of_multi_page (text : str) (title : option str) :
  pdf_generator._build_story text title
  = map layout.spacer_for_break
      (pdf_generator.generate_multi_page_story (split text [10%N; 10%N])
         title).
Proof.
  unfold pdf_generator._build_story, pdf_generator.generate_multi_page_story.
  set (pages := split text [10%N; 10%N]).
  assert (Ht : map layout.spacer_for_break
                 (pdf_generator.title_flowables title)
               = pdf_generator.title_flowables title)
    by (now destruct title as [[|c t] |]).
  rewrite <- Ht at 1.
  generalize (pdf_generator.title_flowables title) as story.
  generalize (pdf_generator.enumerate pages) as l.
  induction l as [|ip l IH]; intros story; simpl; [reflexivity |].
  now rewrite <- page_step_of_multi_page_step, IH.
Qed.

Lemma page_breaks_app (a b : list pdf_generator.Flowable) :
  layout.page_breaks (a ++ b)
  = (layout.page_breaks a + layout.page_breaks b)%nat.
Proof. unfold layout.page_breaks. now rewrite filter_app, length_app. Qed.

Lemma page_breaks_lines (paragraphs : list str) :
  layout.page_breaks (map layout.line_flowable paragraphs) = 0%nat.
Proof.
  unfold layout.page_breaks.
  induction paragraphs as [|para l IH]; simpl; [reflexivity |].
  unfold layout.line_flowable at 1.
  now destruct (pdf_generator.blank para).
Qed.

Lemma page_breaks_title (title : option str) :
  layout.page_breaks (pdf_generator.title_flowables title) = 0%nat.
Proof. now destruct title as [[|c t] |]. Qed.

(** The loop of [generate_multi_page] from page [n] on. *)
Lemma multi_page_loop_breaks (page_texts : list str) (l : list str) (n : nat)
    (story : list pdf_generator.Flowable) :
  (n + length l = length page_texts)%nat ->
  layout.page_breaks
    (fold_left (pdf_generator.multi_page_step page_texts)
       (combine (map Z.of_nat (seq n (length l))) l) story)
  = (layout.page_breaks story
     + length (filter (fun p => negb (pdf_generator.blank p))
                 (removelast l)))%nat.
Proof.
  revert n story. induction l as [|p l IH]; intros n story Hn.
  - simpl. lia.
  - cbn [length seq map combine fold_left].
    rewrite IH by (simpl in Hn; lia).
    unfold pdf_generator.multi_page_step.
    destruct (pdf_generator.blank p) eqn:Hb.
    + destruct l as [|q l]; [reflexivity |].
      cbn [removelast filter]. rewrite Hb. reflexivity.
    + rewrite paragraphs_loop. unfold len.
      destruct l as [|q l].
      * simpl in Hn.
        replace (Z.of_nat n <? Z.of_nat (length page_texts) - 1) with false
          by (symmetry; apply Z.ltb_ge; lia).
        rewrite page_breaks_app, page_breaks_lines. simpl. lia.
      * simpl in Hn.
        replace (Z.of_nat n <? Z.of_nat (length page_texts) - 1) with true
          by (symmetry; apply Z.ltb_lt; lia).
        rewrite !page_breaks_app, page_breaks_lines.
        change (removelast (p :: q :: l)) with (p :: removelast (q :: l)).
        cbn [filter]. rewrite Hb. cbn [negb length].
        change (layout.page_breaks [pdf_generator.PageBreak]) with 1%nat.
        lia.
Qed.

(** X21. The story of [generate_multi_page] has one page break for each
    page that is not blank, the last page apart: a blank page adds no
    break, and the break after a page is added whether or not a page
    with text follows. So a story whose last pages are blank ends in a
    page break. *)
Theorem multi_page_breaks (page_texts : list str) (title : option str) :
  layout.page_breaks
    (pdf_generator.generate_multi_page_story page_texts title)
  = length (filter (fun p => negb (pdf_generator.blank p))
              (removelast page_texts))
  /\ (forall p, pdf_generator.blank p = false ->
        pdf_generator.generate_multi_page_story [p; []] None
        = map layout.line_flowable (split p [10%N])
          ++ [pdf_generator.PageBreak]).
Proof.
  split.
  - unfold pdf_generator.generate_multi_page_story, pdf_generator.enumerate.
    rewrite (multi_page_loop_breaks page_texts page_texts 0) by reflexivity.
    now rewrite page_breaks_title.
  - intros p Hb. unfold pdf_generator.generate_multi_page_story.
    cbn [pdf_generator.enumerate length seq map combine fold_left
         pdf_generator.title_flowables].
    unfold pdf_generator.multi_page_step at 2. rewrite Hb.
    rewrite paragraphs_loop. cbn [app]. simpl (_ <? _).
    reflexivity.
Qed.

Lemma multi_page_breaks_witness :
  pdf_generator.blank (lit "John Doe") = false
  /\ pdf_generator.generate_multi_page_story [lit "John Doe"; []] None
     = [pdf_generator.Paragraph (lit "John Doe") (lit "body");
        pdf_generator.PageBreak]
  /\ layout.page_breaks
       (pdf_generator.generate_multi_page_story
          [lit "a"; lit " "; lit "b"; lit "c"] None) = 2%nat.
Proof.
  destruct (multi_page_breaks [lit "John Doe"; []] None) as [_ Hend].
  destruct (multi_page_breaks [lit "a"; lit " "; lit "b"; lit "c"] None)
    as [Hcount _].
  split; [reflexivity |]. split.
  - rewrite (Hend (lit "John Doe") eq_refl). reflexivity.
  - rewrite Hcount. reflexivity.
Defined.

(** ** The generators *)

Lemma generator_of_address {F : Type} `{anonymizer.Faker F} :
  anonymizer._generate_replacement (F := F) (lit "US_ADDRESS")
  = anonymizer.bind anonymizer.address
      (fun a => anonymizer.ret (replace a [10%N] (lit ", "))).
Proof. reflexivity. Qed.

Lemma generator_of_itin {F : Type} `{anonymizer.Faker F} :
  anonymizer._generate_replacement (F := F) (lit "US_ITIN")
  = anonymizer._generate_itin.
Proof. reflexivity. Qed.

(** X22. The replacement of a US address is the address that Faker
    gives with every newline turned into a comma and a space: it has no
    newline, so that it stays in the line and the page that the original
    was in, and it is one draw from Faker. *)
Theorem address_on_one_line {F : Type} `{anonymizer.Faker F} (f : F) :
  let a := fst (anonymizer.address f) in
  let r := anonymizer._generate_replacement (lit "US_ADDRESS") f in
  fst r = flat_map (fun c => if (c =? 10)%N then lit ", " else [c]) a
  /\ Forall (fun c => c <> 10%N) (fst r)
  /\ snd r = snd (anonymizer.address f).
Proof.
  intros a r. subst a r. rewrite generator_of_address.
  unfold anonymizer.bind, anonymizer.ret.
  destruct (anonymizer.address f) as [a f']. cbn [fst snd].
  rewrite replace_char. split; [reflexivity |]. split; [| reflexivity].
  induction a as [|c a IH]; simpl; [constructor |].
  apply Forall_app. split; [| exact IH].
  destruct (N.eqb_spec c 10); repeat constructor; try discriminate.
  assumption.
Qed.

(** A check of every integer of a range. *)
Lemma range_check (P : Z -> bool) (lo hi : Z) :
  forallb P (map (fun k => lo + Z.of_nat k)
               (seq 0 (Z.to_nat (hi - lo + 1)))) = true ->
  forall z, lo <= z <= hi -> P z = true.
Proof.
  intros Hall z Hz. rewrite forallb_forall in Hall. apply Hall.
  apply in_map_iff. exists (Z.to_nat (z - lo)). split; [lia |].
  apply in_seq. lia.
Qed.

Lemma format_02d_group (group : Z) :
  70 <= group <= 99 ->
  layout.digits 2 (format_02d group) = true
  /\ exists d rest, format_02d group = d :: rest /\ (55 <= d <= 57)%N.
Proof.
  intros Hg.
  pose (check := fun g => layout.digits 2 (format_02d g)
                         && match format_02d g with
                            | d :: _ => (55 <=? d)%N && (d <=? 57)%N
                            | [] => false
                            end).
  assert (Hc : check group = true)
    by (apply (range_check check 70 99); [vm_compute; reflexivity | lia]).
  unfold check in Hc. apply andb_true_iff in Hc as [Hd Hf].
  split; [exact Hd |].
  destruct (format_02d group) as [|d rest]; [discriminate |].
  exists d, rest. split; [reflexivity |].
  apply andb_true_iff in Hf as [H1 H2].
  apply N.leb_le in H1, H2. lia.
Qed.

Lemma str_of_int_serial (serial : Z) :
  1000 <= serial <= 9999 -> layout.digits 4 (str_of_int serial) = true.
Proof.
  intros Hs.
  apply (range_check (fun s => layout.digits 4 (str_of_int s)) 1000 9999);
    [vm_compute; reflexivity | lia].
Qed.

Lemma digits_length (n : nat) (s : str) :
  layout.digits n s = true -> length s = n.
Proof.
  unfold layout.digits. intros Hd.
  apply andb_true_iff in Hd as [Hl _]. now apply Nat.eqb_eq.
Qed.

(** X23. When Faker keeps to the bounds that it is asked for,
    [random_int(min=70, max=99)] within 70 and 99 and
    [random_number(digits=4, fix_len=True)] within 1000 and 9999, the
    replacement of an ITIN is eight characters long: the digit 9, two
    digits of which the first is 7, 8 or 9, a hyphen and four digits, that
    is seven digits and one separator. *)
Theorem generate_itin_shape {F : Type} `{anonymizer.Faker F} (f : F) :
  (forall f0, 70 <= fst (anonymizer.random_int 70 99 f0) <= 99) ->
  (forall f0, 1000 <= fst (anonymizer.random_number 4 true f0) <= 9999) ->
  exists d group serial,
    fst (anonymizer._generate_replacement (lit "US_ITIN") f)
    = lit "9" ++ (d :: group) ++ lit "-" ++ serial
    /\ (55 <= d <= 57)%N
    /\ layout.digits 2 (d :: group) = true
    /\ layout.digits 4 serial = true
    /\ len (fst (anonymizer._generate_replacement (lit "US_ITIN") f)) = 8.
Proof.
  intros Hint Hnum. rewrite generator_of_itin.
  unfold anonymizer._generate_itin, anonymizer.bind, anonymizer.ret.
  specialize (Hint f).
  destruct (anonymizer.random_int 70 99 f) as [group f1]. cbn [fst] in Hint.
  specialize (Hnum f1).
  destruct (anonymizer.random_number 4 true f1) as [serial f2].
  cbn [fst] in *.
  destruct (format_02d_group group Hint) as (Hg & d & rest & Eg & Hd).
  pose proof (str_of_int_serial serial Hnum) as Hs.
  rewrite Eg in *.
  exists d, rest, (str_of_int serial).
  change (str_of_int 9) with (lit "9").
  repeat split; try assumption; try lia.
  apply digits_length in Hg, Hs. unfold len.
  rewrite !length_app, Hs. simpl in Hg |- *. lia.
Qed.

Lemma generate_itin_shape_witness :
  (forall f0 : nat, 70 <= fst (anonymizer.random_int 70 99 f0) <= 99)
  /\ (forall f0 : nat,
        1000 <= fst (anonymizer.random_number 4 true f0) <= 9999)
  /\ fst (anonymizer._generate_replacement (lit "US_ITIN") 0%nat)
     = lit "970-1000"
  /\ len (fst (anonymizer._generate_replacement (lit "US_ITIN") 0%nat)) = 8.
Proof.
  assert (H1 : forall f0 : nat,
             70 <= fst (anonymizer.random_int 70 99 f0) <= 99)
    by (intros f0; simpl; lia).
  assert (H2 : forall f0 : nat,
             1000 <= fst (anonymizer.random_number 4 true f0) <= 9999)
    by (intros f0; simpl; lia).
  split; [exact H1 |]. split; [exact H2 |]. split; [reflexivity |].
  destruct (generate_itin_shape 0%nat H1 H2) as (d & g & s & _ & _ & _ & _ & Hl).
  exact Hl.
Defined.

Lemma generator_of_vin {F : Type} `{anonymizer.Faker F} :
  anonymizer._generate_replacement (F := F) (lit "VEHICLE_REGISTRATION")
  = anonymizer._generate_vin.
Proof. reflexivity. Qed.

Lemma generator_of_date_of_birth {F : Type} `{anonymizer.Faker F} :
  anonymizer._generate_replacement (F := F) (lit "DATE_OF_BIRTH")
  = anonymizer.bind (anonymizer.date_of_birth 18 90)
      (fun d => anonymizer.ret (anonymizer.strftime_mdY d)).
Proof. reflexivity. Qed.

(** What [n] draws joined together are made of. *)
Lemma join_times_draws {F : Type} (g : anonymizer.Gen F str)
    (P : char -> Prop) (n : nat) (f : F) :
  (forall f0, exists c, fst (g f0) = [c] /\ P c) ->
  length (fst (anonymizer.join_times n g f)) = n
  /\ Forall P (fst (anonymizer.join_times n g f)).
Proof.
  intros Hg. revert f. induction n as [|n IH]; intros f.
  - simpl. split; [reflexivity | constructor].
  - cbn [anonymizer.join_times]. unfold anonymizer.bind, anonymizer.ret.
    destruct (Hg f) as (c & Ec & Hc).
    destruct (g f) as [a f1]. cbn [fst] in Ec. subst a.
    destruct (IH f1) as [Hl Hall].
    destruct (anonymizer.join_times n g f1) as [b f2]. cbn [fst] in *.
    split; [simpl; now rewrite Hl | now constructor].
Qed.

(** X24. When [random_element] gives one character of the string that
    it is handed, here the alphabet of a VIN, the replacement of a vehicle registration is a VIN of
    17 characters, each of them a digit or an upper-case letter other
    than I, O and Q. *)
Theorem generate_vin_shape {F : Type} `{anonymizer.Faker F} (f : F) :
  (forall f0, exists c,
      fst (anonymizer.random_element
             (lit "ABCDEFGHJKLMNPRSTUVWXYZ0123456789") f0) = [c]
      /\ In c (lit "ABCDEFGHJKLMNPRSTUVWXYZ0123456789")) ->
  let vin := fst (anonymizer._generate_replacement
                    (lit "VEHICLE_REGISTRATION") f) in
  len vin = 17
  /\ Forall (fun c => In c (lit "ABCDEFGHJKLMNPRSTUVWXYZ0123456789")) vin
  /\ Forall (fun c => ~ In c (lit "IOQ")) vin.
Proof.
  intros Hel vin. subst vin. rewrite generator_of_vin.
  unfold anonymizer._generate_vin.
  destruct (join_times_draws
              (anonymizer.random_element
                 (lit "ABCDEFGHJKLMNPRSTUVWXYZ0123456789"))
              (fun c => In c (lit "ABCDEFGHJKLMNPRSTUVWXYZ0123456789"))
              17 f Hel) as [Hl Hall].
  split; [unfold len; now rewrite Hl |]. split; [exact Hall |].
  eapply Forall_impl; [| exact Hall].
  intros c Hc Hioq. simpl in Hc, Hioq.
  repeat (destruct Hc as [<- | Hc];
          [repeat (destruct Hioq as [Hioq | Hioq]; [discriminate |]);
           contradiction |]).
  contradiction.
Qed.

Lemma generate_vin_shape_witness :
  (forall f0 : nat, exists c,
      fst (anonymizer.random_element
             (lit "ABCDEFGHJKLMNPRSTUVWXYZ0123456789") f0) = [c]
      /\ In c (lit "ABCDEFGHJKLMNPRSTUVWXYZ0123456789"))
  /\ fst (anonymizer._generate_replacement (lit "VEHICLE_REGISTRATION") 0%nat)
     = lit "AAAAAAAAAAAAAAAAA"
  /\ len (fst (anonymizer._generate_replacement
                 (lit "VEHICLE_REGISTRATION") 0%nat)) = 17.
Proof.
  assert (Hel : forall f0 : nat, exists c,
             fst (anonymizer.random_element
                    (lit "ABCDEFGHJKLMNPRSTUVWXYZ0123456789") f0) = [c]
             /\ In c (lit "ABCDEFGHJKLMNPRSTUVWXYZ0123456789")).
  { intros f0. exists 65%N. split; [reflexivity | now left]. }
  split; [exact Hel |]. split; [reflexivity |].
  destruct (generate_vin_shape 0%nat Hel) as [Hl _]. exact Hl.
Defined.

Lemma format_02d_two_digits (n : Z) :
  1 <= n <= 31 -> layout.digits 2 (format_02d n) = true.
Proof.
  apply (range_check (fun n => layout.digits 2 (format_02d n)) 1 31).
  vm_compute. reflexivity.
Qed.

(** X25. When Faker gives a date of birth whose month is within 1 and
    12, whose day is within 1 and 31 and whose year has four digits, the
    replacement of a date of birth is ten characters long: two digits for
    the month, a slash, two digits for the day, a slash and the four
    digits of the year. *)
Theorem generate_date_of_birth_shape {F : Type} `{anonymizer.Faker F}
    (f : F) :
  (forall f0, let d := fst (anonymizer.date_of_birth 18 90 f0) in
              1000 <= fst (fst d) <= 9999 /\ 1 <= snd (fst d) <= 12
              /\ 1 <= snd d <= 31) ->
  exists month day year,
    fst (anonymizer._generate_replacement (lit "DATE_OF_BIRTH") f)
    = month ++ lit "/" ++ day ++ lit "/" ++ year
    /\ layout.digits 2 month = true
    /\ layout.digits 2 day = true
    /\ layout.digits 4 year = true
    /\ len (fst (anonymizer._generate_replacement (lit "DATE_OF_BIRTH") f))
       = 10.
Proof.
  intros Hd. rewrite generator_of_date_of_birth.
  unfold anonymizer.bind, anonymizer.ret. specialize (Hd f).
  destruct (anonymizer.date_of_birth 18 90 f) as [[[year month] day] f1].
  cbn [fst snd] in *. destruct Hd as (Hy & Hm & Hdy).
  unfold anonymizer.strftime_mdY.
  pose proof (format_02d_two_digits month ltac:(lia)) as Em.
  pose proof (format_02d_two_digits day Hdy) as Ed.
  pose proof (str_of_int_serial year Hy) as Ey.
  exists (format_02d month), (format_02d day), (str_of_int year).
  repeat split; try assumption.
  apply digits_length in Em, Ed, Ey. unfold len.
  rewrite !length_app, Em, Ed, Ey. reflexivity.
Qed.

Lemma generate_date_of_birth_shape_witness :
  (forall f0 : nat,
      let d := fst (anonymizer.date_of_birth 18 90 f0) in
      1000 <= fst (fst d) <= 9999 /\ 1 <= snd (fst d) <= 12
      /\ 1 <= snd d <= 31)
  /\ fst (anonymizer._generate_replacement (lit "DATE_OF_BIRTH") 0%nat)
     = lit "01/02/1980"
  /\ len (fst (anonymizer._generate_replacement (lit "DATE_OF_BIRTH") 0%nat))
     = 10.
Proof.
  assert (Hd : forall f0 : nat,
             let d := fst (anonymizer.date_of_birth 18 90 f0) in
             1000 <= fst (fst d) <= 9999 /\ 1 <= snd (fst d) <= 12
             /\ 1 <= snd d <= 31)
    by (intros f0; simpl; lia).
  split; [exact Hd |]. split; [reflexivity |].
  destruct (generate_date_of_birth_shape 0%nat Hd)
    as (m & d & y & _ & _ & _ & _ & Hl).
  exact Hl.
Defined.
